(** * The AI-response pipeline of the task assistant (backend/app/services/ai_service.py)

    A shallow embedding of [AIService]: the JSON extractor, the field
    validator, the fallback generators and the orchestrator operations,
    together with the Python builtins they rely on.

    Conventions of the model.
    - Python values are the inductive [pyval]; a [dict] with string keys is an
      association list in insertion order.
    - A Python [str] is a [string]; each [ascii] stands for one character
      (code points 0..255, i.e. Latin-1 text).  Characters above U+00FF have
      no representation; a JSON [\uXXXX] escape that denotes one is reported
      by the decoder of this model as undecodable.
    - A Python [float] is a binary64 [spec_float] (precision 53, emax 1024).
    - Exceptions are the subclasses of [Exception]; a computation that can
      raise has type [result A].  Interpreter limits (recursion depth, the
      integer digit limit, memory) are not modelled. *)

From Stdlib Require Import ZArith List Bool Ascii String Lia.
From Stdlib Require Import Floats.SpecFloat.
Import ListNotations.

Local Open Scope string_scope.
Local Open Scope Z_scope.

(** ** Exceptions and the error monad *)

Inductive exn : Type :=
| TypeError
| ValueError
| KeyError
| AttributeError
| OverflowError
| JSONDecodeError            (* json.JSONDecodeError, a ValueError *)
| BackendError (msg : string) (* anything the generative backend raises *).

Inductive result (A : Type) : Type :=
| Ok (a : A)
| Raise (e : exn).
Arguments Ok {A} a.
Arguments Raise {A} e.

Definition bind {A B : Type} (m : result A) (k : A -> result B) : result B :=
  match m with
  | Ok a => k a
  | Raise e => Raise e
  end.

Notation "x <- m ;; k" := (bind m (fun x => k))
  (at level 61, m at next level, right associativity).

(** [try: body except Exception: handler] *)
Definition try_except {A : Type} (body : result A) (handler : exn -> result A)
  : result A :=
  match body with
  | Ok a => Ok a
  | Raise e => handler e
  end.

(** [try: body except json.JSONDecodeError: handler]; any other exception
    goes through. *)
Definition try_except_JSONDecodeError {A : Type} (body : result A)
  (handler : result A) : result A :=
  match body with
  | Ok a => Ok a
  | Raise JSONDecodeError => handler
  | Raise e => Raise e
  end.

(** ** Python values *)

#[warnings="-register-all"]
Inductive pyval : Type :=
| PNone
| PBool (b : bool)
| PInt (z : Z)
| PFloat (f : spec_float)
| PStr (s : string)
| PList (l : list pyval)
| PDict (d : list (string * pyval)).

(** Numbers, as the arithmetic builtins see them. *)
Inductive number : Type :=
| NInt (z : Z)
| NFloat (f : spec_float).

Definition pyval_of_number (n : number) : pyval :=
  match n with
  | NInt z => PInt z
  | NFloat f => PFloat f
  end.

(** [bool] is a subclass of [int]. *)
Definition as_number (v : pyval) : option number :=
  match v with
  | PBool b => Some (NInt (if b then 1 else 0))
  | PInt z => Some (NInt z)
  | PFloat f => Some (NFloat f)
  | _ => None
  end.

(** *** binary64 *)

Definition prec : Z := 53.
Definition emax : Z := 1024.

(** The float nearest to [m * 2^e]. *)
Definition float_of_dyadic (m e : Z) : spec_float :=
  binary_normalize prec emax m e false.

(** The float nearest to [digits * 10^e10], sign [neg]: the correctly
    rounded (round-half-even) value that [float] and the JSON decoder give
    to a decimal literal. *)
Definition float_of_decimal (neg : bool) (digits : Z) (e10 : Z) : spec_float :=
  match digits with
  | Zpos p =>
      if 0 <=? e10
      then binary_round prec emax neg (p * Z.to_pos (10 ^ e10))%positive 0
      else
        let '(q, e, l) :=
          SFdiv_core_binary prec emax (Zpos p) 0 (10 ^ (- e10)) 0 in
        binary_round_aux prec emax neg q e l
  | _ => S754_zero neg
  end.

Definition float_half : spec_float := S754_finite false 4503599627370496 (-53).
Definition float_one : spec_float := S754_finite false 4503599627370496 (-52).

(** *** Exact comparison of numbers

    Python compares [int] with [float] exactly.  Every number that is not a
    NaN or an infinity is a dyadic [m * 2^e]. *)

Inductive xnum : Type :=
| XNaN
| XInf (neg : bool)
| XDy (m e : Z).

Definition xnum_of_number (n : number) : xnum :=
  match n with
  | NInt z => XDy z 0
  | NFloat S754_nan => XNaN
  | NFloat (S754_infinity s) => XInf s
  | NFloat (S754_zero _) => XDy 0 0
  | NFloat (S754_finite s m e) => XDy (if s then Zneg m else Zpos m) e
  end.

Definition xnum_compare (a b : xnum) : option comparison :=
  match a, b with
  | XNaN, _ | _, XNaN => None
  | XInf s1, XInf s2 =>
      Some (match s1, s2 with
            | true, false => Lt
            | false, true => Gt
            | _, _ => Eq
            end)
  | XInf s, XDy _ _ => Some (if s then Lt else Gt)
  | XDy _ _, XInf s => Some (if s then Gt else Lt)
  | XDy m1 e1, XDy m2 e2 =>
      let e := Z.min e1 e2 in
      Some (Z.compare (m1 * 2 ^ (e1 - e)) (m2 * 2 ^ (e2 - e)))
  end.

Definition num_compare (a b : number) : option comparison :=
  xnum_compare (xnum_of_number a) (xnum_of_number b).

(** [a < b], [a > b], [a <= b]; all false when a NaN is involved. *)
Definition num_ltb (a b : number) : bool :=
  match num_compare a b with Some Lt => true | _ => false end.
Definition num_gtb (a b : number) : bool :=
  match num_compare a b with Some Gt => true | _ => false end.
Definition num_leb (a b : number) : bool :=
  match num_compare a b with Some (Lt | Eq) => true | _ => false end.

Definition is_nan (n : number) : bool :=
  match n with
  | NFloat S754_nan => true
  | _ => false
  end.

(** The builtin [max(a, b)]: the first argument unless the second is
    greater. *)
Definition py_max (a b : number) : number := if num_gtb b a then b else a.

(** The builtin [min(a, b)]: the first argument unless the second is
    smaller. *)
Definition py_min (a b : number) : number := if num_ltb b a then b else a.

(** [v < c] and [v > c] against a numeric constant [c]: a [TypeError] for
    every operand that is not a number. *)
Definition py_lt_number (v : pyval) (c : number) : result bool :=
  match as_number v with
  | Some n => Ok (num_ltb n c)
  | None => Raise TypeError
  end.

Definition py_gt_number (v : pyval) (c : number) : result bool :=
  match as_number v with
  | Some n => Ok (num_gtb n c)
  | None => Raise TypeError
  end.

(** ** Strings *)

Definition code (c : ascii) : N := N_of_ascii c.

Definition in_range (lo hi : N) (c : ascii) : bool :=
  (N.leb lo (code c) && N.leb (code c) hi)%bool.

Definition is_digit (c : ascii) : bool := in_range 48 57 c.

(** [str.isspace] on one character: TAB..CR, FS..US, SPACE, NEL, NBSP. *)
Definition is_space (c : ascii) : bool :=
  (in_range 9 13 c || in_range 28 31 c || N.eqb (code c) 32
   || N.eqb (code c) 133 || N.eqb (code c) 160)%bool.

(** What [re]'s [\w] matches in a [str] pattern: [_] and the alphanumeric
    characters ([str.isalnum]). *)
Definition is_word (c : ascii) : bool :=
  (is_digit c || in_range 65 90 c || in_range 97 122 c || N.eqb (code c) 95
   || N.eqb (code c) 170 || N.eqb (code c) 178 || N.eqb (code c) 179
   || N.eqb (code c) 181 || N.eqb (code c) 185 || N.eqb (code c) 186
   || in_range 188 190 c || in_range 192 214 c || in_range 216 246 c
   || in_range 248 255 c)%bool.

(** [str.lower] on one character: A..Z and the upper-case letters
    U+00C0..U+00DE (the multiplication sign U+00D7 is not a letter). *)
Definition lower_char (c : ascii) : ascii :=
  if (in_range 65 90 c
      || (in_range 192 222 c && negb (N.eqb (code c) 215)))%bool
  then ascii_of_N (code c + 32)
  else c.

Fixpoint lower (s : string) : string :=
  match s with
  | EmptyString => EmptyString
  | String c s' => String (lower_char c) (lower s')
  end.

Fixpoint lstrip_by (p : ascii -> bool) (s : string) : string :=
  match s with
  | EmptyString => EmptyString
  | String c s' => if p c then lstrip_by p s' else s
  end.

(** Drops the longest suffix whose characters all satisfy [p]. *)
Fixpoint rstrip_by (p : ascii -> bool) (s : string) : string :=
  match s with
  | EmptyString => EmptyString
  | String c s' =>
      match rstrip_by p s' with
      | EmptyString => if p c then EmptyString else String c EmptyString
      | r => String c r
      end
  end.

(** [s.strip()] *)
Definition strip (s : string) : string := rstrip_by is_space (lstrip_by is_space s).

(** [s.startswith(p)] *)
Fixpoint startswith (p s : string) : bool :=
  match p, s with
  | EmptyString, _ => true
  | String a p', String b s' => (Ascii.eqb a b && startswith p' s')%bool
  | String _ _, EmptyString => false
  end.

(** [s[:n]] for a non-negative [n]. *)
Definition str_slice_to (n : nat) (s : string) : string := substring 0 n s.

(** [x in xs] for a list [xs] of [str] constants: only an equal [str] is a
    member; comparing any other value with a [str] is [False]. *)
Definition py_in_strs (v : pyval) (xs : list string) : bool :=
  match v with
  | PStr s => existsb (String.eqb s) xs
  | _ => false
  end.

(** ** Mappings *)

Fixpoint assoc {A : Type} (k : string) (d : list (string * A)) : option A :=
  match d with
  | [] => None
  | (k', v) :: d' => if String.eqb k k' then Some v else assoc k d'
  end.

(** [d[k] = v] on an insertion-ordered dict: an existing key keeps its
    place and takes the new value. *)
Fixpoint dict_set {A : Type} (k : string) (v : A) (d : list (string * A))
  : list (string * A) :=
  match d with
  | [] => [(k, v)]
  | (k', v') :: d' =>
      if String.eqb k k' then (k, v) :: d' else (k', v') :: dict_set k v d'
  end.

(** [d.get(k, default)]: only a dict has [get]. *)
Definition py_get (d : pyval) (k : string) (default : pyval) : result pyval :=
  match d with
  | PDict kvs =>
      match assoc k kvs with
      | Some v => Ok v
      | None => Ok default
      end
  | _ => Raise AttributeError
  end.

(** [d[k]] for a string key [k]: [KeyError] on a dict without the key,
    [TypeError] on a list or a str (indices must be integers) and on values
    that are not subscriptable. *)
Definition py_getitem (d : pyval) (k : string) : result pyval :=
  match d with
  | PDict kvs =>
      match assoc k kvs with
      | Some v => Ok v
      | None => Raise KeyError
      end
  | _ => Raise TypeError
  end.

(** [v[:n]]: a str and a list can be sliced; [None], numbers and booleans
    are not subscriptable, and a dict rejects a slice as key (a [TypeError]
    up to Python 3.11, a [KeyError] from 3.12). *)
Definition py_slice_to (n : nat) (v : pyval) : result pyval :=
  match v with
  | PStr s => Ok (PStr (str_slice_to n s))
  | PList l => Ok (PList (firstn n l))
  | _ => Raise TypeError
  end.

(** [len(v)] of a sized value. *)
Definition py_len (v : pyval) : option nat :=
  match v with
  | PStr s => Some (String.length s)
  | PList l => Some (List.length l)
  | PDict d => Some (List.length d)
  | _ => None
  end.

(** ** [float(...)] *)

Fixpoint take_digits (s : string) : string * string :=
  match s with
  | String c s' =>
      if is_digit c
      then let '(ds, r) := take_digits s' in (String c ds, r)
      else (EmptyString, s)
  | EmptyString => (EmptyString, EmptyString)
  end.

(** The value of a string of decimal digits. *)
Fixpoint digits_value (acc : Z) (ds : string) : Z :=
  match ds with
  | EmptyString => acc
  | String c ds' => digits_value (10 * acc + (Z.of_N (code c) - 48)) ds'
  end.

Definition take_sign (s : string) : bool * string :=
  match s with
  | String "-" r => (true, r)
  | String "+" r => (false, r)
  | _ => (false, s)
  end.

(** The whitespace [float] strips from both ends of its argument. *)
Definition is_float_space (c : ascii) : bool :=
  (in_range 9 13 c || N.eqb (code c) 32 || N.eqb (code c) 133
   || N.eqb (code c) 160)%bool.

(** An underscore is accepted between two digits only; the accepted ones
    are removed.  [prev_digit] and [prev_us] describe the previous
    character. *)
Fixpoint drop_underscores (prev_digit prev_us : bool) (s : string)
  : option string :=
  match s with
  | EmptyString => if prev_us then None else Some EmptyString
  | String c s' =>
      if Ascii.eqb c "_"
      then if prev_digit then drop_underscores false true s' else None
      else if (prev_us && negb (is_digit c))%bool then None
      else option_map (String c) (drop_underscores (is_digit c) false s')
  end.

(** [[digits] [. [digits]] [(e|E) [sign] digits]] with at least one digit
    in the mantissa, the whole string. *)
Definition decimal_literal (neg : bool) (s : string) : option spec_float :=
  let '(ip, r1) := take_digits s in
  let '(fp, r2) :=
    match r1 with
    | String "." r => take_digits r
    | _ => (EmptyString, r1)
    end in
  if (String.length ip + String.length fp =? 0)%nat then None
  else
    let mant := digits_value 0 (ip ++ fp) in
    let scale := - Z.of_nat (String.length fp) in
    match r2 with
    | EmptyString => Some (float_of_decimal neg mant scale)
    | String c r =>
        if (Ascii.eqb c "e" || Ascii.eqb c "E")%bool
        then
          let '(eneg, r3) := take_sign r in
          match take_digits r3 with
          | (String d ds, EmptyString) =>
              let e := digits_value 0 (String d ds) in
              Some (float_of_decimal neg mant
                      (scale + (if eneg then - e else e)))
          | _ => None
          end
        else None
    end.

(** [float(s)] for a str: [None] is a [ValueError]. *)
Definition float_of_str (s : string) : option spec_float :=
  match drop_underscores false false
          (rstrip_by is_float_space (lstrip_by is_float_space s)) with
  | None => None
  | Some t =>
      let '(neg, body) := take_sign t in
      let w := lower body in
      if (String.eqb w "inf" || String.eqb w "infinity")%bool
      then Some (S754_infinity neg)
      else if String.eqb w "nan" then Some S754_nan
      else decimal_literal neg body
  end.

(** [float(n)] for an int: the nearest float, [OverflowError] beyond the
    range of binary64. *)
Definition float_of_int (z : Z) : result spec_float :=
  match float_of_dyadic z 0 with
  | S754_infinity _ => Raise OverflowError
  | f => Ok f
  end.

(** The builtin [float(v)]. *)
Definition py_float (v : pyval) : result spec_float :=
  match v with
  | PFloat f => Ok f
  | PInt z => float_of_int z
  | PBool b => Ok (if b then float_one else S754_zero false)
  | PStr s =>
      match float_of_str s with
      | Some f => Ok f
      | None => Raise ValueError
      end
  | PNone | PList _ | PDict _ => Raise TypeError
  end.

(** ** [json.loads] *)

(** JSON whitespace: space, TAB, LF, CR. *)
Definition is_json_ws (c : ascii) : bool :=
  (N.eqb (code c) 32 || N.eqb (code c) 9 || N.eqb (code c) 10
   || N.eqb (code c) 13)%bool.

Definition skip_ws (s : string) : string := lstrip_by is_json_ws s.

Fixpoint drop (n : nat) (s : string) : string :=
  match n, s with
  | S n', String _ s' => drop n' s'
  | _, _ => s
  end.

(** The double quote. *)
Definition dquote : ascii := ascii_of_N 34.

Definition hex_value (c : ascii) : option N :=
  if is_digit c then Some (code c - 48)%N
  else if in_range 97 102 c then Some (code c - 87)%N
  else if in_range 65 70 c then Some (code c - 55)%N
  else None.

(** The character written [\e] for the one-letter escapes. *)
Definition simple_escape (e : ascii) : option ascii :=
  match code e with
  | 34%N => Some e                    (* quote *)
  | 92%N => Some e                    (* backslash *)
  | 47%N => Some e                    (* slash *)
  | 98%N => Some (ascii_of_N 8)       (* b: backspace *)
  | 102%N => Some (ascii_of_N 12)     (* f: form feed *)
  | 110%N => Some (ascii_of_N 10)     (* n: line feed *)
  | 114%N => Some (ascii_of_N 13)     (* r: carriage return *)
  | 116%N => Some (ascii_of_N 9)      (* t: TAB *)
  | _ => None
  end.

Definition cons_char (c : ascii) (r : option (string * string))
  : option (string * string) :=
  match r with
  | Some (s, rest) => Some (String c s, rest)
  | None => None
  end.

(** The body of a string literal, from just after the opening quote: the
    decoded text and what follows the closing quote.  Strict mode: a raw
    control character is an error. *)
Fixpoint scanstring (s : string) : option (string * string) :=
  match s with
  | EmptyString => None
  | String c r =>
      if Ascii.eqb c dquote then Some (EmptyString, r)
      else if Ascii.eqb c "\" then
        match r with
        | String e r' =>
            match simple_escape e with
            | Some ch => cons_char ch (scanstring r')
            | None =>
                if Ascii.eqb e "u" then
                  match r' with
                  | String h1 (String h2 (String h3 (String h4 r''))) =>
                      match hex_value h1, hex_value h2,
                            hex_value h3, hex_value h4 with
                      | Some a, Some b, Some c', Some d =>
                          let n := (((a * 16 + b) * 16 + c') * 16 + d)%N in
                          if (n <? 256)%N
                          then cons_char (ascii_of_N n) (scanstring r'')
                          else None (* above U+00FF: outside the model *)
                      | _, _, _, _ => None
                      end
                  | _ => None
                  end
                else None
            end
        | EmptyString => None
        end
      else if (code c <? 32)%N then None
      else cons_char c (scanstring r)
  end.

(** The rest of [s] after its first character, when that is [c]. *)
Definition after (c : ascii) (s : string) : option string :=
  match s with
  | String c' r => if Ascii.eqb c' c then Some r else None
  | EmptyString => None
  end.

(** The integer part of a number: [0], or a digit from 1 to 9 and the
    digits after it. *)
Definition scan_int_part (s : string) : option (string * string) :=
  match s with
  | String c r =>
      if Ascii.eqb c "0" then Some ("0", r)
      else if is_digit c then Some (take_digits s)
      else None
  | EmptyString => None
  end.

(** The fraction: a [.] and the digits after it, when there is at least
    one; otherwise nothing is read. *)
Definition scan_frac_part (s : string) : string * string :=
  match after "." s with
  | Some (String d r) =>
      if is_digit d then take_digits (String d r) else (EmptyString, s)
  | _ => (EmptyString, s)
  end.

(** The exponent: [e] or [E], a sign if any, and the digits after it, when
    there is at least one; otherwise nothing is read. *)
Definition scan_exp_part (s : string) : option Z * string :=
  match s with
  | String c r =>
      if (Ascii.eqb c "e" || Ascii.eqb c "E")%bool
      then
        let '(eneg, r') :=
          match after "-" r with
          | Some t => (true, t)
          | None =>
              match after "+" r with
              | Some t => (false, t)
              | None => (false, r)
              end
          end in
        match take_digits r' with
        | (String d ds, rest) =>
            let e := digits_value 0 (String d ds) in
            (Some (if eneg then - e else e), rest)
        | _ => (None, s)
        end
      else (None, s)
  | EmptyString => (None, s)
  end.

(** A number at the head of [s]: an [int] when it has neither a fraction
    nor an exponent, a [float] otherwise. *)
Definition scan_number (s : string) : option (pyval * string) :=
  let '(neg, s1) :=
    match after "-" s with
    | Some r => (true, r)
    | None => (false, s)
    end in
  match scan_int_part s1 with
  | None => None
  | Some (ip, r1) =>
      let '(fp, r2) := scan_frac_part r1 in
      let '(ex, r3) := scan_exp_part r2 in
      match fp, ex with
      | EmptyString, None =>
          let n := digits_value 0 ip in
          Some (PInt (if neg then - n else n), r3)
      | _, _ =>
          let e := match ex with Some e => e | None => 0 end in
          Some (PFloat (float_of_decimal neg (digits_value 0 (ip ++ fp))
                          (e - Z.of_nat (String.length fp))), r3)
      end
  end.

(** The scanner: one value at the head of [s], and the rest of the text.
    [fuel] bounds the depth of the calls; more than twice the length of [s]
    is never exhausted ([scan_fuel_enough]). *)
Fixpoint scan_once (fuel : nat) (s : string) {struct fuel}
  : option (pyval * string) :=
  match fuel with
  | O => None
  | S fuel' =>
      match s with
      | EmptyString => None
      | String c r =>
          if Ascii.eqb c dquote then
            match scanstring r with
            | Some (str, rest) => Some (PStr str, rest)
            | None => None
            end
          else if Ascii.eqb c "{" then
            match after "}" (skip_ws r) with
            | Some rest => Some (PDict [], rest)
            | None => scan_members fuel' (skip_ws r) []
            end
          else if Ascii.eqb c "[" then
            match after "]" (skip_ws r) with
            | Some rest => Some (PList [], rest)
            | None => scan_elements fuel' (skip_ws r) []
            end
          else if startswith "null" s then Some (PNone, drop 4 s)
          else if startswith "true" s then Some (PBool true, drop 4 s)
          else if startswith "false" s then Some (PBool false, drop 5 s)
          else if startswith "NaN" s then Some (PFloat S754_nan, drop 3 s)
          else if startswith "Infinity" s
          then Some (PFloat (S754_infinity false), drop 8 s)
          else if startswith "-Infinity" s
          then Some (PFloat (S754_infinity true), drop 9 s)
          else scan_number s
      end
  end

(** The members of an object, from the first key; [acc] holds the pairs
    read so far (a repeated key keeps its place and takes the last value). *)
with scan_members (fuel : nat) (s : string) (acc : list (string * pyval))
  {struct fuel} : option (pyval * string) :=
  match fuel with
  | O => None
  | S fuel' =>
      match after dquote s with
      | None => None
      | Some r =>
          match scanstring r with
          | None => None
          | Some (key, r1) =>
              match after ":" (skip_ws r1) with
              | None => None
              | Some r2 =>
                  match scan_once fuel' (skip_ws r2) with
                  | None => None
                  | Some (v, r3) =>
                      let acc' := dict_set key v acc in
                      match after "}" (skip_ws r3) with
                      | Some rest => Some (PDict acc', rest)
                      | None =>
                          match after "," (skip_ws r3) with
                          | Some r4 => scan_members fuel' (skip_ws r4) acc'
                          | None => None
                          end
                      end
                  end
              end
          end
      end
  end

(** The elements of an array, from the first one; [acc] holds the values
    read so far, last first. *)
with scan_elements (fuel : nat) (s : string) (acc : list pyval)
  {struct fuel} : option (pyval * string) :=
  match fuel with
  | O => None
  | S fuel' =>
      match scan_once fuel' s with
      | None => None
      | Some (v, r1) =>
          match after "]" (skip_ws r1) with
          | Some rest => Some (PList (rev (v :: acc)), rest)
          | None =>
              match after "," (skip_ws r1) with
              | Some r2 => scan_elements fuel' (skip_ws r2) (v :: acc)
              | None => None
              end
          end
      end
  end.

(** [json.loads(s)]: one value, with whitespace allowed around it and
    nothing else. *)
Definition json_loads (s : string) : result pyval :=
  let s0 := skip_ws s in
  match scan_once (S (2 * String.length s0)) s0 with
  | Some (v, rest) =>
      match skip_ws rest with
      | EmptyString => Ok v
      | _ => Raise JSONDecodeError
      end
  | None => Raise JSONDecodeError
  end.

(** ** The regular expressions of the extractor *)

Definition newline : ascii := ascii_of_N 10.

(** [re.sub(r'^```\w*\n?', '', text)]: an opening fence at the very start
    goes, with the word characters after it and one line feed. *)
Definition re_sub_opening_fence (text : string) : string :=
  if startswith "```" text then
    match lstrip_by is_word (drop 3 text) with
    | String c r => if Ascii.eqb c newline then r else String c r
    | EmptyString => EmptyString
    end
  else text.

(** [re.sub(r'\n?```$', '', text)]: [$] is the end of the text or the place
    just before a line feed that ends it; the leftmost place where the
    pattern matches is the only one. *)
Fixpoint re_sub_closing_fence (text : string) : string :=
  if (String.eqb text "```" || String.eqb text (String newline "```"))%bool
  then EmptyString
  else if (String.eqb text ("```" ++ String newline "")
           || String.eqb text (String newline ("```" ++ String newline "")))%bool
  then String newline ""
  else
    match text with
    | EmptyString => EmptyString
    | String c text' => String c (re_sub_closing_fence text')
    end.

(** After an opening brace: the characters up to the next brace, when that
    brace is a closing one. *)
Fixpoint brace_body (s : string) : option string :=
  match s with
  | EmptyString => None
  | String c s' =>
      if Ascii.eqb c "}" then Some (String c EmptyString)
      else if Ascii.eqb c "{" then None
      else option_map (String c) (brace_body s')
  end.

(** [re.search(r'\{[^{}]*\}', text, re.DOTALL)], as [match.group()]: the
    leftmost substring that runs from [{] to [}] without a brace between. *)
Fixpoint re_search_braces (text : string) : option string :=
  match text with
  | EmptyString => None
  | String c text' =>
      if Ascii.eqb c "{" then
        match brace_body text' with
        | Some m => Some (String c m)
        | None => re_search_braces text'
        end
      else re_search_braces text'
  end.

(** ** schemas.py: the enumerations *)

(** [[p.value for p in Priority]] *)
Definition valid_priorities : list string := ["low"; "medium"; "high"; "urgent"].

(** [[c.value for c in Category]] *)
Definition valid_categories : list string :=
  ["work"; "personal"; "health"; "finance"; "learning"; "errands"; "other"].

(** ** AIService *)

(** The dict [_validate_parsed_task] and [_fallback_parse] return. *)
Record parsed_task : Type := {
  title : pyval;
  description : pyval;
  priority : pyval;
  category : pyval;
  due_date : pyval;
  confidence : pyval
}.

(** Lines 195-200 of [_extract_json]: the text that is parsed. *)
Definition clean_response (text : string) : string :=
  let text := strip text in
  if startswith "```" text
  then re_sub_closing_fence (re_sub_opening_fence text)
  else text.

Definition _extract_json (text : string) : result pyval :=
  let text := clean_response text in
  try_except_JSONDecodeError (json_loads text)
    match re_search_braces text with
    | Some m => try_except (json_loads m) (fun _ => Ok (PDict []))
    | None => Ok (PDict [])
    end.

Definition _validate_parsed_task (data : pyval) : result parsed_task :=
  t <- py_get data "title" (PStr "New Task") ;;
  title <- py_slice_to 255 t ;;
  description <- py_get data "description" PNone ;;
  p <- py_get data "priority" PNone ;;
  priority <- (if py_in_strs p valid_priorities
               then py_get data "priority" (PStr "medium")
               else Ok (PStr "medium")) ;;
  c <- py_get data "category" PNone ;;
  category <- (if py_in_strs c valid_categories
               then py_get data "category" (PStr "other")
               else Ok (PStr "other")) ;;
  due_date <- py_get data "due_date" PNone ;;
  x <- py_get data "confidence" (PFloat float_half) ;;
  f <- py_float x ;;
  Ok {| title := title;
        description := description;
        priority := priority;
        category := category;
        due_date := due_date;
        confidence :=
          pyval_of_number (py_min (py_max (NFloat f) (NInt 0)) (NInt 1)) |}.

Definition _fallback_parse (text : string) : parsed_task :=
  {| title := PStr (str_slice_to 100 text);
     description := PNone;
     priority := PStr "medium";
     category := PStr "other";
     due_date := PNone;
     confidence := PFloat float_half |}.

(** The dict [_fallback_insights] returns.  The summary is the sentence
    "You have {total} tasks with a {rate:.0%} completion rate."; it is kept
    as the two values it interpolates. *)
Record insights : Type := {
  ai_summary : pyval * pyval;
  ai_tips : list string
}.

(** [format(v, '.0%')]: a number is turned into a float first. *)
Definition format_percent (v : pyval) : result unit :=
  match v with
  | PStr _ => Raise ValueError
  | _ => _ <- py_float v ;; Ok tt
  end.

Definition _fallback_insights (stats : pyval) : result insights :=
  let tips : list string := [] in
  rate <- py_get stats "completion_rate" (PInt 0) ;;
  low_rate <- py_lt_number rate (NFloat float_half) ;;
  let tips :=
    if low_rate
    then (tips ++ ["Try breaking large tasks into smaller ones"])%list
    else tips in
  by_priority <- py_get stats "by_priority" (PDict []) ;;
  urgent <- py_get by_priority "urgent" (PInt 0) ;;
  many_urgent <- py_gt_number urgent (NInt 3) ;;
  let tips :=
    if many_urgent
    then (tips
          ++ ["You have many urgent tasks - consider reviewing priorities"])%list
    else tips in
  let tips := (tips ++ ["Consistent daily progress leads to success"])%list in
  total <- py_get stats "total" (PInt 0) ;;
  rate' <- py_get stats "completion_rate" (PInt 0) ;;
  _ <- format_percent rate' ;;
  Ok {| ai_summary := (total, rate'); ai_tips := firstn 3 tips |}.

(** *** Dict keys

    A dict finds a key through [hash] and [==]: [None], a str, or a number
    up to numeric equality ([1 == 1.0 == True]); a list or a dict is not
    hashable.  A number that is not a NaN is identified by its dyadic form
    with an odd mantissa.  A NaN equals nothing. *)

Fixpoint odd_part (p : positive) : positive * Z :=
  match p with
  | xO p' => let '(q, k) := odd_part p' in (q, k + 1)
  | _ => (p, 0)
  end.

Definition xnum_normal (x : xnum) : xnum :=
  match x with
  | XDy (Zpos p) e => let '(q, k) := odd_part p in XDy (Zpos q) (e + k)
  | XDy (Zneg p) e => let '(q, k) := odd_part p in XDy (Zneg q) (e + k)
  | XDy Z0 _ => XDy 0 0
  | _ => x
  end.

Inductive hkey : Type :=
| HNone
| HStr (s : string)
| HNum (x : xnum).

(** [hash(v)] succeeds. *)
Definition py_hash_key (v : pyval) : result hkey :=
  match v with
  | PNone => Ok HNone
  | PStr s => Ok (HStr s)
  | PBool _ | PInt _ | PFloat _ =>
      match as_number v with
      | Some n => Ok (HNum (xnum_normal (xnum_of_number n)))
      | None => Raise TypeError
      end
  | PList _ | PDict _ => Raise TypeError
  end.

Definition xnum_eqb (a b : xnum) : bool :=
  match a, b with
  | XInf s1, XInf s2 => Bool.eqb s1 s2
  | XDy m1 e1, XDy m2 e2 => ((m1 =? m2) && (e1 =? e2))%bool
  | _, _ => false
  end.

Definition hkey_eqb (a b : hkey) : bool :=
  match a, b with
  | HNone, HNone => true
  | HStr s, HStr t => String.eqb s t
  | HNum x, HNum y => xnum_eqb x y
  | _, _ => false
  end.

(** A dict with arbitrary hashable keys, in insertion order. *)
Definition keymap : Type := list (hkey * pyval).

Fixpoint keymap_get (k : hkey) (m : keymap) : option pyval :=
  match m with
  | [] => None
  | (k', v) :: m' => if hkey_eqb k k' then Some v else keymap_get k m'
  end.

Fixpoint keymap_set (k : hkey) (v : pyval) (m : keymap) : keymap :=
  match m with
  | [] => [(k, v)]
  | (k', v') :: m' =>
      if hkey_eqb k k' then (k', v) :: m' else (k', v') :: keymap_set k v m'
  end.

(** [for x in v]: the items of a list, the characters of a str, the keys of
    a dict. *)
Fixpoint chars (s : string) : list pyval :=
  match s with
  | EmptyString => []
  | String c s' => PStr (String c EmptyString) :: chars s'
  end.

Definition py_iter (v : pyval) : result (list pyval) :=
  match v with
  | PList l => Ok l
  | PStr s => Ok (chars s)
  | PDict d => Ok (map (fun kv => PStr (fst kv)) d)
  | _ => Raise TypeError
  end.

Fixpoint mapM {A B : Type} (f : A -> result B) (l : list A) : result (list B) :=
  match l with
  | [] => Ok []
  | a :: l' => b <- f a ;; bs <- mapM f l' ;; Ok (b :: bs)
  end.

(** *** The backend

    [self.model.generate_content(prompt).text] is an oracle: it returns a
    text or raises.  A prompt is kept as the values its template
    interpolates. *)

Inductive prompt : Type :=
| ParsePrompt (text today : string)
| PrioritizePrompt (lines : list (pyval * pyval * pyval * pyval))
| CategorizePrompt (title description : string).

Definition backend : Type := prompt -> result string.

(** [self.model]: [None] when no key is configured or the initialisation
    failed. *)
Record AIService : Type := { model : option backend }.

Definition is_available (self : AIService) : bool :=
  match model self with
  | Some _ => true
  | None => false
  end.

(** What an operation returns or raises, and the prompts it sent. *)
Record run (A : Type) : Type := {
  outcome : result A;
  calls : list prompt
}.
Arguments outcome {A} r.
Arguments calls {A} r.

Definition parse_natural_language (self : AIService) (today text : string)
  : run parsed_task :=
  match model self with
  | None => {| outcome := Ok (_fallback_parse text); calls := [] |}
  | Some generate_content =>
      let prompt := ParsePrompt text today in
      {| outcome :=
           try_except
             (response <- generate_content prompt ;;
              result <- _extract_json response ;;
              _validate_parsed_task result)
             (fun _ => Ok (_fallback_parse text));
         calls := [prompt] |}
  end.

(** The reasoning of a prioritisation: a value, or the text
    [f"Error: {str(e)}"] of the exception that was caught. *)
Inductive reasoning_text : Type :=
| Reasoning (v : pyval)
| ErrorReasoning (e : exn).

Record prioritization : Type := {
  prioritized_tasks : list pyval;
  reasoning : reasoning_text
}.

(** One line of the task list in the prompt. *)
Definition task_line (t : pyval) : result (pyval * pyval * pyval * pyval) :=
  id <- py_getitem t "id" ;;
  ttl <- py_getitem t "title" ;;
  due <- py_get t "due_date" (PStr "none") ;;
  cat <- py_get t "category" (PStr "other") ;;
  Ok (id, ttl, due, cat).

(** [{t["id"]: t for t in tasks}] *)
Fixpoint build_task_map (tasks : list pyval) (m : keymap) : result keymap :=
  match tasks with
  | [] => Ok m
  | t :: tasks' =>
      id <- py_getitem t "id" ;;
      k <- py_hash_key id ;;
      build_task_map tasks' (keymap_set k t m)
  end.

(** [[task_map[tid] for tid in order if tid in task_map]] *)
Fixpoint pick_tasks (task_map : keymap) (order : list pyval)
  : result (list pyval) :=
  match order with
  | [] => Ok []
  | tid :: order' =>
      k <- py_hash_key tid ;;
      rest <- pick_tasks task_map order' ;;
      Ok (match keymap_get k task_map with
          | Some t => t :: rest
          | None => rest
          end)
  end.

(** The same comprehension when [order] is the default list: every [tid] is
    then the very object that is a key of [task_map], and a dict finds an
    object that is a key even if it equals nothing (a NaN).  Distinct tasks
    are taken to hold distinct id objects. *)
Fixpoint pick_own_tasks (task_map : keymap) (tasks : list pyval)
  : result (list pyval) :=
  match tasks with
  | [] => Ok []
  | t :: tasks' =>
      id <- py_getitem t "id" ;;
      k <- py_hash_key id ;;
      rest <- pick_own_tasks task_map tasks' ;;
      Ok (match k with
          | HNum XNaN => t :: rest
          | _ =>
              match keymap_get k task_map with
              | Some t' => t' :: rest
              | None => rest
              end
          end)
  end.

Definition has_key (k : string) (d : pyval) : bool :=
  match d with
  | PDict kvs => match assoc k kvs with Some _ => true | None => false end
  | _ => false
  end.

Definition prioritize_tasks (self : AIService) (tasks : list pyval)
  : run prioritization :=
  match model self, tasks with
  | None, _ | _, [] =>
      {| outcome :=
           Ok {| prioritized_tasks := tasks;
                 reasoning :=
                   Reasoning (PStr "AI unavailable - using default order") |};
         calls := [] |}
  | Some generate_content, _ :: _ =>
      match mapM task_line tasks with
      | Raise e => {| outcome := Raise e; calls := [] |}
      | Ok lines =>
          let prompt := PrioritizePrompt lines in
          {| outcome :=
               try_except
                 (response <- generate_content prompt ;;
                  result <- _extract_json response ;;
                  ids <- mapM (fun t => py_getitem t "id") tasks ;;
                  order <- py_get result "order" (PList ids) ;;
                  task_map <- build_task_map tasks [] ;;
                  prioritized <-
                    (if has_key "order" result
                     then tids <- py_iter order ;; pick_tasks task_map tids
                     else pick_own_tasks task_map tasks) ;;
                  why <- py_get result "reasoning" (PStr "Prioritized by AI") ;;
                  Ok {| prioritized_tasks := prioritized;
                        reasoning := Reasoning why |})
                 (fun e => Ok {| prioritized_tasks := tasks;
                                 reasoning := ErrorReasoning e |});
             calls := [prompt] |}
      end
  end.

(** Lines 141-147 of [categorize_task]: what becomes of the answer. *)
Definition normalize_category (answer : string) : string :=
  let category := lower (strip answer) in
  if existsb (String.eqb category) valid_categories
  then category
  else "other".

Definition categorize_task (self : AIService) (title description : string)
  : run string :=
  match model self with
  | None => {| outcome := Ok "other"; calls := [] |}
  | Some generate_content =>
      let prompt := CategorizePrompt title description in
      {| outcome :=
           try_except
             (response <- generate_content prompt ;;
              Ok (normalize_category response))
             (fun _ => Ok "other");
         calls := [prompt] |}
  end.

(** *** The extractor as the specification words it

    The direct parse is tried on the cleaned text; when it fails, the
    brace-delimited substring is searched in the text as received. *)
Definition extract_json_spec (raw : string) : result pyval :=
  try_except_JSONDecodeError (json_loads (clean_response raw))
    match re_search_braces raw with
    | Some m => try_except (json_loads m) (fun _ => Ok (PDict []))
    | None => Ok (PDict [])
    end.

(** Sample texts are written with single quotes for the double quotes of
    JSON. *)
Fixpoint dq (s : string) : string :=
  match s with
  | EmptyString => EmptyString
  | String c s' => String (if Ascii.eqb c "'" then dquote else c) (dq s')
  end.

(** ** Notions used to state the properties *)

(** A number between 0 and 1, bounds included. *)
Definition in_unit_interval (v : pyval) : bool :=
  match as_number v with
  | Some n => (num_leb (NInt 0) n && num_leb n (NInt 1))%bool
  | None => false
  end.

Definition is_nan_value (v : pyval) : bool :=
  match v with
  | PFloat S754_nan => true
  | _ => false
  end.

(** The key under which a task is filed: the hash key of [t["id"]]. *)
Definition task_key (t : pyval) : result hkey :=
  id <- py_getitem t "id" ;; py_hash_key id.

(** The lookup from id to task, in words: the last task of the list whose id
    equals [k], or [found] when there is none. *)
Fixpoint task_with_key (k : hkey) (tasks : list pyval) (found : option pyval)
  : option pyval :=
  match tasks with
  | [] => found
  | t :: tasks' =>
      task_with_key k tasks'
        (match task_key t with
         | Ok k' => if hkey_eqb k k' then Some t else found
         | Raise _ => found
         end)
  end.

(** What one entry of the order contributes to the result. *)
Definition emitted (tasks : list pyval) (tid : pyval) : list pyval :=
  match py_hash_key tid with
  | Ok k =>
      match task_with_key k tasks None with
      | Some t => [t]
      | None => []
      end
  | Raise _ => []
  end.

(** Some substring of [text] is the JSON text of an object. *)
Definition contains_json_object (text : string) : Prop :=
  exists (i n : nat) (d : list (string * pyval)),
    json_loads (substring i n text) = Ok (PDict d).

(** The three tips of [_fallback_insights]. *)
Definition tip_split : string := "Try breaking large tasks into smaller ones".
Definition tip_urgent : string :=
  "You have many urgent tasks - consider reviewing priorities".
Definition tip_daily : string := "Consistent daily progress leads to success".

(** A task as the router hands it over (routers/ai.py, lines 122-131). *)
Definition task_n (n : Z) (name : string) : pyval :=
  PDict [("id", PInt n); ("title", PStr name); ("priority", PStr "medium");
         ("category", PStr "work"); ("due_date", PNone)].

(** ** The rest of the service and its callers *)

(** [__init__] and [_initialize] (ai_service.py, lines 21-36).  [genai]
    stands for [genai.configure(api_key=...)] followed by
    [genai.GenerativeModel('gemini-1.5-flash')]: it gives the model handle
    or raises.  An empty key is falsy and nothing is constructed. *)
Definition _initialize (gemini_api_key : string)
  (genai : string -> result backend) : AIService :=
  if String.eqb gemini_api_key ""
  then {| model := None |}
  else
    match genai gemini_api_key with
    | Ok m => {| model := Some m |}
    | Raise _ => {| model := None |}
    end.

(** The insights prompt, as the values its template interpolates: the five
    entries of [stats] and the titles of the first five tasks. *)
Inductive insights_prompt : Type :=
| InsightsPrompt (total completed rate by_category by_priority : pyval)
    (recent : list pyval).

(** [self.model], as it answers an insights prompt. *)
Definition insights_backend : Type := insights_prompt -> result string.

(** What [generate_insights] returns: the summary and tips of the answer,
    taken as they come, or the insights computed from the statistics. *)
Inductive insights_answer : Type :=
| AIInsights (summary tips : pyval)
| StatsInsights (i : insights).

Record insights_run : Type := {
  insights_outcome : result insights_answer;
  insights_calls : list insights_prompt
}.

(** Lines 159-177 of [generate_insights]: the subscripts and the [:.1%]
    format that building the prompt evaluates (the format makes the same
    conversions as [:.0%]). *)
Definition insights_prompt_of (tasks : list pyval) (stats : pyval)
  : result insights_prompt :=
  total <- py_getitem stats "total" ;;
  completed <- py_getitem stats "completed" ;;
  rate <- py_getitem stats "completion_rate" ;;
  _ <- format_percent rate ;;
  by_category <- py_getitem stats "by_category" ;;
  by_priority <- py_getitem stats "by_priority" ;;
  recent <- mapM (fun t => py_getitem t "title") (firstn 5 tasks) ;;
  Ok (InsightsPrompt total completed rate by_category by_priority recent).

Definition default_summary : pyval := PStr "Keep up the good work!".
Definition default_tips : pyval :=
  PList [PStr "Stay focused"; PStr "Prioritize important tasks";
         PStr "Take breaks"].

Definition generate_insights (model : option insights_backend)
  (tasks : list pyval) (stats : pyval) : insights_run :=
  match model with
  | None =>
      {| insights_outcome :=
           i <- _fallback_insights stats ;; Ok (StatsInsights i);
         insights_calls := [] |}
  | Some generate_content =>
      match insights_prompt_of tasks stats with
      | Raise e => {| insights_outcome := Raise e; insights_calls := [] |}
      | Ok prompt =>
          {| insights_outcome :=
               try_except
                 (response <- generate_content prompt ;;
                  result <- _extract_json response ;;
                  summary <- py_get result "summary" default_summary ;;
                  tips <- py_get result "tips" default_tips ;;
                  Ok (AIInsights summary tips))
                 (fun _ =>
                    i <- _fallback_insights stats ;; Ok (StatsInsights i));
             insights_calls := [prompt] |}
      end
  end.

(** The dict that [_validate_parsed_task] returns, as a value. *)
Definition parsed_task_dict (t : parsed_task) : pyval :=
  PDict [("title", title t); ("description", description t);
         ("priority", priority t); ("category", category t);
         ("due_date", due_date t); ("confidence", confidence t)].

(** Every character of [s] satisfies [p]. *)
Fixpoint string_forall (p : ascii -> bool) (s : string) : bool :=
  match s with
  | EmptyString => true
  | String c s' => (p c && string_forall p s')%bool
  end.

(** A task the prompt of [prioritize_tasks] can be built from: a mapping
    with an id and a title. *)
Definition well_formed_task (t : pyval) : bool :=
  match t with
  | PDict kvs =>
      match assoc "id" kvs, assoc "title" kvs with
      | Some _, Some _ => true
      | _, _ => false
      end
  | _ => false
  end.

(** No task of the list has the id of a task before it. *)
Fixpoint distinct_ids (tasks : list pyval) : Prop :=
  match tasks with
  | [] => True
  | t :: tasks' =>
      (forall t' k k', In t' tasks' -> task_key t = Ok k ->
         task_key t' = Ok k' -> hkey_eqb k k' = false)
      /\ distinct_ids tasks'
  end.

(** *** models.py and routers/ai.py *)

Module Models.

(** A row of the table [tasks] (models.py, lines 29-46).  A [DateTime] is
    kept as its [isoformat()] text. *)
Record Task : Type := {
  id : Z;
  title : string;
  description : option string;
  completed : bool;
  priority : string;
  category : string;
  due_date : option string;
  ai_generated : bool;
  created_at : string;
  updated_at : string
}.

End Models.

(** routers/ai.py, lines 122-131: the dict handed to the service for one
    row. *)
Definition task_data (t : Models.Task) : pyval :=
  PDict [("id", PInt (Models.id t));
         ("title", PStr (Models.title t));
         ("priority", PStr (Models.priority t));
         ("category", PStr (Models.category t));
         ("due_date",
           match Models.due_date t with
           | Some d => PStr d
           | None => PNone
           end)].

(** routers/ai.py, lines 122-133: the service call of the prioritize
    endpoint on the rows the query found. *)
Definition prioritize_rows (self : AIService) (rows : list Models.Task)
  : run prioritization :=
  prioritize_tasks self (map task_data rows).

(** *** main.py: the CORS settings (lines 67-81) *)

(** [s.split(sep)] for a one-character separator. *)
Fixpoint split_on (sep : ascii) (s : string) : list string :=
  match s with
  | EmptyString => [EmptyString]
  | String c s' =>
      if Ascii.eqb c sep then EmptyString :: split_on sep s'
      else
        match split_on sep s' with
        | piece :: pieces => String c piece :: pieces
        | [] => [String c EmptyString]
        end
  end.

(** [sep.join(pieces)] *)
Fixpoint join_with (sep : ascii) (pieces : list string) : string :=
  match pieces with
  | [] => EmptyString
  | [piece] => piece
  | piece :: pieces' => piece ++ String sep (join_with sep pieces')
  end.

Record cors_settings : Type := {
  allow_origins : list string;
  allow_credentials : bool
}.

Definition cors_middleware (setting : string) : cors_settings :=
  let cors_origins := strip setting in
  {| allow_origins :=
       if String.eqb cors_origins "*"
       then ["*"]
       else map strip (split_on "," cors_origins);
     allow_credentials :=
       if negb (String.eqb cors_origins "*") then true else false |}.

(** No character of [s] is a comma. *)
Definition comma_free (s : string) : bool :=
  string_forall (fun c => negb (Ascii.eqb c ",")) s.

(** *** schemas.py: the enumerations (lines 10-26) *)

Module Schemas.

Inductive Priority : Type := LOW | MEDIUM | HIGH | URGENT.

Inductive Category : Type :=
| WORK | PERSONAL | HEALTH | FINANCE | LEARNING | ERRANDS | OTHER.

(** [member.value] *)
Definition Priority_value (p : Priority) : string :=
  match p with
  | LOW => "low"
  | MEDIUM => "medium"
  | HIGH => "high"
  | URGENT => "urgent"
  end.

Definition Category_value (c : Category) : string :=
  match c with
  | WORK => "work"
  | PERSONAL => "personal"
  | HEALTH => "health"
  | FINANCE => "finance"
  | LEARNING => "learning"
  | ERRANDS => "errands"
  | OTHER => "other"
  end.

(** The members, in the order of their definition. *)
Definition Priority_members : list Priority := [LOW; MEDIUM; HIGH; URGENT].
Definition Category_members : list Category :=
  [WORK; PERSONAL; HEALTH; FINANCE; LEARNING; ERRANDS; OTHER].

(** [Priority(v)] and [Category(v)]: the member whose value is [v]; a
    [ValueError] when there is none. *)
Definition Priority_of (v : pyval) : result Priority :=
  match v with
  | PStr s =>
      match find (fun p => String.eqb s (Priority_value p)) Priority_members with
      | Some p => Ok p
      | None => Raise ValueError
      end
  | _ => Raise ValueError
  end.

Definition Category_of (v : pyval) : result Category :=
  match v with
  | PStr s =>
      match find (fun c => String.eqb s (Category_value c)) Category_members with
      | Some c => Ok c
      | None => Raise ValueError
      end
  | _ => Raise ValueError
  end.

End Schemas.

(** routers/ai.py, lines 44-53: the arguments that the parse endpoint
    evaluates from the dict of the service, before the response model is
    constructed (the construction itself, with the checks of its fields, is
    not part of the model). *)
Record parse_response_arguments : Type := {
  response_title : pyval;
  response_description : pyval;
  response_priority : Schemas.Priority;
  response_category : Schemas.Category;
  response_due_date : pyval;
  response_confidence : pyval
}.

Definition parse_response (parsed : pyval) : result parse_response_arguments :=
  title <- py_getitem parsed "title" ;;
  description <- py_get parsed "description" PNone ;;
  p <- py_get parsed "priority" (PStr "medium") ;;
  priority <- Schemas.Priority_of p ;;
  c <- py_get parsed "category" (PStr "other") ;;
  category <- Schemas.Category_of c ;;
  due_date <- py_get parsed "due_date" PNone ;;
  confidence <- py_get parsed "confidence" (PFloat float_half) ;;
  Ok {| response_title := title;
        response_description := description;
        response_priority := priority;
        response_category := category;
        response_due_date := due_date;
        response_confidence := confidence |}.

(** routers/ai.py, lines 153-157: the update of the row that
    [auto_categorize_task] found. *)
Definition auto_categorize_task (self : AIService) (task : Models.Task)
  : run Models.Task :=
  let r :=
    categorize_task self (Models.title task)
      (match Models.description task with
       | Some d => d
       | None => ""
       end) in
  {| outcome :=
       category <- outcome r ;;
       Ok {| Models.id := Models.id task;
             Models.title := Models.title task;
             Models.description := Models.description task;
             Models.completed := Models.completed task;
             Models.priority := Models.priority task;
             Models.category := category;
             Models.due_date := Models.due_date task;
             Models.ai_generated := Models.ai_generated task;
             Models.created_at := Models.created_at task;
             Models.updated_at := Models.updated_at task |};
     calls := calls r |}.

(** * Properties *)

(** ** The error monad *)

Lemma bind_Ok {A B : Type} (m : result A) (k : A -> result B) (b : B) :
  bind m k = Ok b -> exists a, m = Ok a /\ k a = Ok b.
Proof.
  destruct m as [a | e]; simpl; intros H.
  - exists a. split; [reflexivity | exact H].
  - discriminate H.
Qed.

(** ** Numbers *)

Lemma xnum_compare_antisym (a b : xnum) :
  xnum_compare b a = option_map CompOpp (xnum_compare a b).
Proof.
  destruct a as [| s1 | m1 e1], b as [| s2 | m2 e2]; simpl; try reflexivity.
  - destruct s1, s2; reflexivity.
  - destruct s1; reflexivity.
  - destruct s2; reflexivity.
  - rewrite (Z.min_comm e2 e1). f_equal. apply Z.compare_antisym.
Qed.

Lemma num_compare_antisym (a b : number) :
  num_compare b a = option_map CompOpp (num_compare a b).
Proof. apply xnum_compare_antisym. Qed.

Lemma num_compare_defined (a b : number) :
  is_nan a = false -> is_nan b = false -> exists c, num_compare a b = Some c.
Proof.
  unfold num_compare.
  destruct a as [z1 | [s1 | s1 | | s1 m1 e1]], b as [z2 | [s2 | s2 | | s2 m2 e2]];
    simpl; intros Ha Hb; try discriminate; eexists; reflexivity.
Qed.

(** [min(max(f, 0), 1)] is within the bounds unless [f] is a NaN, which it
    then returns. *)
Lemma clamp_in_unit_interval (f : spec_float) (c : pyval) :
  c = pyval_of_number (py_min (py_max (NFloat f) (NInt 0)) (NInt 1)) ->
  is_nan_value c = false -> in_unit_interval c = true.
Proof.
  unfold py_max, py_min. intros ->.
  destruct (num_gtb (NInt 0) (NFloat f)) eqn:Hlow; [reflexivity |].
  destruct (num_ltb (NInt 1) (NFloat f)) eqn:Hhigh; [reflexivity |].
  simpl. intros Hnan.
  assert (Hf : is_nan (NFloat f) = false) by (destruct f; auto).
  unfold in_unit_interval, num_leb; simpl.
  destruct (num_compare_defined (NInt 0) (NFloat f) eq_refl Hf) as [c0 H0].
  destruct (num_compare_defined (NInt 1) (NFloat f) eq_refl Hf) as [c1 H1].
  pose proof (num_compare_antisym (NInt 1) (NFloat f)) as Hsym.
  unfold num_gtb in Hlow. unfold num_ltb in Hhigh.
  rewrite H0 in *. rewrite H1 in *. rewrite Hsym. simpl.
  destruct c0; try discriminate; destruct c1; try discriminate; reflexivity.
Qed.

(** What [in_unit_interval] says of a finite float [m * 2^e] of sign [s]:
    it is not negative and [m * 2^e <= 1], written without fractions. *)
Lemma in_unit_interval_finite (s : bool) (m : positive) (e : Z) :
  in_unit_interval (PFloat (S754_finite s m e)) = true <->
  s = false /\ Z.pos m * 2 ^ Z.max e 0 <= 2 ^ Z.max (- e) 0.
Proof.
  unfold in_unit_interval, num_leb, num_compare.
  cbn [as_number xnum_of_number xnum_compare].
  replace (0 - Z.min 0 e) with (Z.max (- e) 0) by lia.
  replace (e - Z.min 0 e) with (Z.max e 0) by lia.
  replace (e - Z.min e 0) with (Z.max e 0) by lia.
  replace (0 - Z.min e 0) with (Z.max (- e) 0) by lia.
  assert (Ha : 0 < 2 ^ Z.max e 0) by (apply Z.pow_pos_nonneg; lia).
  assert (Hb : 0 < 2 ^ Z.max (- e) 0) by (apply Z.pow_pos_nonneg; lia).
  destruct s.
  - assert (Hn : Z.neg m * 2 ^ Z.max e 0 < 0) by (apply Z.mul_neg_pos; lia).
    destruct (Z.compare_spec (0 * 2 ^ Z.max (- e) 0)
                (Z.neg m * 2 ^ Z.max e 0)); cbn [andb];
      split; try discriminate; try lia; intros [Hs _]; discriminate Hs.
  - assert (Hp : 0 < Z.pos m * 2 ^ Z.max e 0) by (apply Z.mul_pos_pos; lia).
    destruct (Z.compare_spec (0 * 2 ^ Z.max (- e) 0)
                (Z.pos m * 2 ^ Z.max e 0)); try lia. cbn [andb].
    destruct (Z.compare_spec (Z.pos m * 2 ^ Z.max e 0)
                (1 * 2 ^ Z.max (- e) 0)); split; try discriminate;
      try (intros _; split; [reflexivity | lia]);
      try (intros [_ Hle]; lia); try reflexivity.
Qed.

(** ** Strings *)

Lemma substring_length_le (s : string) (n : nat) :
  (String.length (substring 0 n s) <= n)%nat.
Proof.
  revert s. induction n as [| n IH]; intros [| c s]; simpl; try lia.
  specialize (IH s). lia.
Qed.

Lemma substring_length_min (s : string) (n : nat) :
  String.length (substring 0 n s) = Nat.min n (String.length s).
Proof.
  revert s. induction n as [| n IH]; intros [| c s]; simpl; try reflexivity.
  now rewrite IH.
Qed.

Lemma substring_prefix (s : string) (n : nat) :
  exists rest, s = substring 0 n s ++ rest.
Proof.
  revert s. induction n as [| n IH]; intros [| c s]; simpl.
  - now exists "".
  - now exists (String c s).
  - now exists "".
  - destruct (IH s) as [rest Hrest]. exists rest. now rewrite <- Hrest.
Qed.

Lemma existsb_eqb_In (x : string) (l : list string) :
  existsb (String.eqb x) l = true -> In x l.
Proof.
  intros H. apply existsb_exists in H. destruct H as [y [Hin Heq]].
  apply String.eqb_eq in Heq. now subst.
Qed.

(** ** The JSON decoder *)

Lemma json_loads_raises (s : string) (e : exn) :
  json_loads s = Raise e -> e = JSONDecodeError.
Proof.
  unfold json_loads.
  destruct (scan_once _ _) as [[v rest] |]; [destruct (skip_ws rest) |];
    intros H; inversion H; reflexivity.
Qed.

Local Open Scope nat_scope.

Lemma lstrip_length (p : ascii -> bool) (s : string) :
  String.length (lstrip_by p s) <= String.length s.
Proof.
  induction s as [| c s IH]; simpl; [lia |].
  destruct (p c); simpl; lia.
Qed.

Lemma after_length (c : ascii) (s r : string) :
  after c s = Some r -> String.length s = S (String.length r).
Proof.
  destruct s as [| c' s']; simpl; [discriminate |].
  destruct (Ascii.eqb c' c); intros H; inversion H; reflexivity.
Qed.

Lemma drop_length (n : nat) (s : string) :
  String.length (drop n s) = String.length s - n.
Proof.
  revert s. induction n as [| n IH]; intros [| c s]; simpl; auto.
Qed.

Lemma startswith_length (p s : string) :
  startswith p s = true -> String.length p <= String.length s.
Proof.
  revert s. induction p as [| a p IH]; intros [| b s]; simpl;
    try lia; try discriminate.
  intros H. apply andb_prop in H. destruct H as [_ H]. apply IH in H. lia.
Qed.

Lemma scanstring_length (s k r : string) :
  scanstring s = Some (k, r) -> String.length r < String.length s.
Proof.
  remember (String.length s) as n eqn:Hn.
  revert s k r Hn. induction n as [n IH] using lt_wf_ind.
  intros s k r Hn H. destruct s as [| c s']; [discriminate |].
  cbn [scanstring] in H. simpl in Hn.
  assert (Hcons : forall ch t, String.length t < n ->
            cons_char ch (scanstring t) = Some (k, r) ->
            String.length r < n).
  { intros ch t Ht Hc. unfold cons_char in Hc.
    destruct (scanstring t) as [[k' r'] |] eqn:E; [| discriminate].
    inversion Hc; subst. pose proof (IH _ Ht t k' r eq_refl E). lia. }
  destruct (Ascii.eqb c dquote).
  { inversion H; subst. lia. }
  destruct (Ascii.eqb c "\").
  - destruct s' as [| e r']; [discriminate |].
    destruct (simple_escape e).
    + eapply Hcons; [| exact H]. simpl in Hn; lia.
    + destruct (Ascii.eqb e "u"); [| discriminate].
      destruct r' as [| h1 [| h2 [| h3 [| h4 r'']]]]; try discriminate.
      destruct (hex_value h1), (hex_value h2), (hex_value h3), (hex_value h4);
        try discriminate.
      destruct (N.ltb _ 256); [| discriminate].
      eapply Hcons; [| exact H]. simpl in Hn; lia.
  - destruct (N.ltb (code c) 32); [discriminate |].
    eapply Hcons; [| exact H]. lia.
Qed.

Lemma take_digits_length (s : string) :
  String.length (snd (take_digits s)) <= String.length s.
Proof.
  induction s as [| c s IH]; simpl; [lia |].
  destruct (is_digit c); [| simpl; lia].
  destruct (take_digits s) as [ds r]. simpl in *. lia.
Qed.

Lemma scan_int_part_length (s ip r : string) :
  scan_int_part s = Some (ip, r) -> String.length r < String.length s.
Proof.
  destruct s as [| c s']; [discriminate |]. unfold scan_int_part.
  destruct (Ascii.eqb c "0").
  - intros H. inversion H; subst. simpl. lia.
  - destruct (is_digit c) eqn:Hd; [| discriminate].
    intros H. inversion H as [Ht]. cbn [take_digits] in Ht. rewrite Hd in Ht.
    pose proof (take_digits_length s') as Hl.
    destruct (take_digits s') as [ds r0]. inversion Ht; subst. simpl in *. lia.
Qed.

Lemma scan_frac_part_length (s : string) :
  String.length (snd (scan_frac_part s)) <= String.length s.
Proof.
  unfold scan_frac_part.
  destruct (after "." s) as [[| d r] |] eqn:E; try (simpl; lia).
  destruct (is_digit d); [| simpl; lia].
  apply after_length in E. pose proof (take_digits_length (String d r)). lia.
Qed.

Lemma scan_exp_part_length (s : string) :
  String.length (snd (scan_exp_part s)) <= String.length s.
Proof.
  unfold scan_exp_part. destruct s as [| c r]; [simpl; lia |].
  destruct (_ || _)%bool; [| simpl; lia].
  assert (H : forall t, String.length t <= String.length r ->
            String.length
              (snd (match take_digits t with
                    | (String d ds, rest) =>
                        (Some (if true then 0 else 0)%Z, rest)
                    | _ => (None, String c r)
                    end)) <= String.length (String c r)).
  { intros t Ht. pose proof (take_digits_length t) as Hl.
    destruct (take_digits t) as [[| d ds] rest]; simpl in *; lia. }
  destruct (after "-" r) as [t |] eqn:E1.
  - apply after_length in E1. specialize (H t ltac:(lia)).
    destruct (take_digits t) as [[| d ds] rest]; simpl in *; lia.
  - destruct (after "+" r) as [t |] eqn:E2.
    + apply after_length in E2. specialize (H t ltac:(lia)).
      destruct (take_digits t) as [[| d ds] rest]; simpl in *; lia.
    + specialize (H r ltac:(lia)).
      destruct (take_digits r) as [[| d ds] rest]; simpl in *; lia.
Qed.

Lemma scan_number_length (s : string) (v : pyval) (r : string) :
  scan_number s = Some (v, r) -> String.length r < String.length s.
Proof.
  unfold scan_number.
  assert (H : forall s1, String.length s1 <= String.length s ->
            forall neg,
            match scan_int_part s1 with
            | None => None
            | Some (ip, r1) =>
                let '(fp, r2) := scan_frac_part r1 in
                let '(ex, r3) := scan_exp_part r2 in
                match fp, ex with
                | EmptyString, None =>
                    Some (PInt (if neg : bool
                                then (- digits_value 0 ip)%Z
                                else digits_value 0 ip), r3)
                | _, _ =>
                    Some (PFloat
                            (float_of_decimal neg (digits_value 0 (ip ++ fp))
                               (match ex with Some e => e | None => 0%Z end
                                - Z.of_nat (String.length fp))%Z), r3)
                end
            end = Some (v, r) -> String.length r < String.length s).
  { intros s1 Hs1 neg.
    destruct (scan_int_part s1) as [[ip r1] |] eqn:Ei; [| discriminate].
    apply scan_int_part_length in Ei.
    pose proof (scan_frac_part_length r1) as Hf.
    destruct (scan_frac_part r1) as [fp r2].
    pose proof (scan_exp_part_length r2) as He.
    destruct (scan_exp_part r2) as [ex r3]. simpl in Hf, He.
    destruct fp, ex; intros H; inversion H; subst; lia. }
  destruct (after "-" s) as [t |] eqn:E.
  - apply after_length in E. apply H. lia.
  - apply H. lia.
Qed.

Lemma scan_once_S (n : nat) (s : string) :
  scan_once (S n) s =
    match s with
    | EmptyString => None
    | String c r =>
        if Ascii.eqb c dquote then
          match scanstring r with
          | Some (str, rest) => Some (PStr str, rest)
          | None => None
          end
        else if Ascii.eqb c "{" then
          match after "}" (skip_ws r) with
          | Some rest => Some (PDict [], rest)
          | None => scan_members n (skip_ws r) []
          end
        else if Ascii.eqb c "[" then
          match after "]" (skip_ws r) with
          | Some rest => Some (PList [], rest)
          | None => scan_elements n (skip_ws r) []
          end
        else if startswith "null" s then Some (PNone, drop 4 s)
        else if startswith "true" s then Some (PBool true, drop 4 s)
        else if startswith "false" s then Some (PBool false, drop 5 s)
        else if startswith "NaN" s then Some (PFloat S754_nan, drop 3 s)
        else if startswith "Infinity" s
        then Some (PFloat (S754_infinity false), drop 8 s)
        else if startswith "-Infinity" s
        then Some (PFloat (S754_infinity true), drop 9 s)
        else scan_number s
    end.
Proof. reflexivity. Qed.

Lemma scan_members_S (n : nat) (s : string) (acc : list (string * pyval)) :
  scan_members (S n) s acc =
    match after dquote s with
    | None => None
    | Some r =>
        match scanstring r with
        | None => None
        | Some (key, r1) =>
            match after ":" (skip_ws r1) with
            | None => None
            | Some r2 =>
                match scan_once n (skip_ws r2) with
                | None => None
                | Some (v, r3) =>
                    match after "}" (skip_ws r3) with
                    | Some rest => Some (PDict (dict_set key v acc), rest)
                    | None =>
                        match after "," (skip_ws r3) with
                        | Some r4 =>
                            scan_members n (skip_ws r4) (dict_set key v acc)
                        | None => None
                        end
                    end
                end
            end
        end
    end.
Proof. reflexivity. Qed.

Lemma scan_elements_S (n : nat) (s : string) (acc : list pyval) :
  scan_elements (S n) s acc =
    match scan_once n s with
    | None => None
    | Some (v, r1) =>
        match after "]" (skip_ws r1) with
        | Some rest => Some (PList (rev (v :: acc)), rest)
        | None =>
            match after "," (skip_ws r1) with
            | Some r2 => scan_elements n (skip_ws r2) (v :: acc)
            | None => None
            end
        end
    end.
Proof. reflexivity. Qed.

Lemma literal_consumes (p s : string) (n : nat) (x v : pyval) (r : string) :
  startswith p s = true -> n = String.length p -> 0 < n ->
  Some (x, drop n s) = Some (v, r) -> String.length r < String.length s.
Proof.
  intros H -> Hp Heq. apply startswith_length in H.
  assert (Hr : drop (String.length p) s = r) by congruence.
  rewrite <- Hr, drop_length. lia.
Qed.

(** Whatever the scanner reads, it reads at least one character. *)
Lemma scan_consumes (n : nat) :
  (forall s v r, scan_once n s = Some (v, r) ->
     String.length r < String.length s) /\
  (forall s acc v r, scan_members n s acc = Some (v, r) ->
     String.length r < String.length s) /\
  (forall s acc v r, scan_elements n s acc = Some (v, r) ->
     String.length r < String.length s).
Proof.
  induction n as [| n [IHo [IHm IHe]]];
    [repeat split; intros; discriminate |].
  repeat split.
  - intros s v r. rewrite scan_once_S.
    destruct s as [| c s']; [discriminate |].
    pose proof (lstrip_length is_json_ws s') as Hws. fold (skip_ws s') in Hws.
    destruct (Ascii.eqb c dquote).
    { destruct (scanstring s') as [[str rest] |] eqn:E; [| discriminate].
      apply scanstring_length in E. intros H; inversion H; subst.
      simpl. lia. }
    destruct (Ascii.eqb c "{").
    { destruct (after "}" (skip_ws s')) as [rest |] eqn:E.
      - apply after_length in E. intros H; inversion H; subst. simpl. lia.
      - intros H. apply IHm in H. simpl. lia. }
    destruct (Ascii.eqb c "[").
    { destruct (after "]" (skip_ws s')) as [rest |] eqn:E.
      - apply after_length in E. intros H; inversion H; subst. simpl. lia.
      - intros H. apply IHe in H. simpl. lia. }
    repeat match goal with
           | |- (if startswith ?p ?t then _ else _) = _ -> _ =>
               let E := fresh "E" in
               destruct (startswith p t) eqn:E;
               [intros H;
                exact (literal_consumes p t _ _ _ _ E eq_refl
                         ltac:(simpl; lia) H)
               |]
           end.
    apply scan_number_length.
  - intros s acc v r. rewrite scan_members_S.
    destruct (after dquote s) as [r0 |] eqn:E0; [| discriminate].
    apply after_length in E0.
    destruct (scanstring r0) as [[key r1] |] eqn:E1; [| discriminate].
    apply scanstring_length in E1.
    pose proof (lstrip_length is_json_ws r1) as Hw1. fold (skip_ws r1) in Hw1.
    destruct (after ":" (skip_ws r1)) as [r2 |] eqn:E2; [| discriminate].
    apply after_length in E2.
    pose proof (lstrip_length is_json_ws r2) as Hw2. fold (skip_ws r2) in Hw2.
    destruct (scan_once n (skip_ws r2)) as [[v0 r3] |] eqn:E3; [| discriminate].
    apply IHo in E3.
    pose proof (lstrip_length is_json_ws r3) as Hw3. fold (skip_ws r3) in Hw3.
    destruct (after "}" (skip_ws r3)) as [rest |] eqn:E4.
    + apply after_length in E4. intros H; inversion H; subst. lia.
    + destruct (after "," (skip_ws r3)) as [r4 |] eqn:E5; [| discriminate].
      apply after_length in E5.
      pose proof (lstrip_length is_json_ws r4) as Hw4.
      fold (skip_ws r4) in Hw4.
      intros H. apply IHm in H. lia.
  - intros s acc v r. rewrite scan_elements_S.
    destruct (scan_once n s) as [[v0 r1] |] eqn:E1; [| discriminate].
    apply IHo in E1.
    pose proof (lstrip_length is_json_ws r1) as Hw1. fold (skip_ws r1) in Hw1.
    destruct (after "]" (skip_ws r1)) as [rest |] eqn:E2.
    + apply after_length in E2. intros H; inversion H; subst. lia.
    + destruct (after "," (skip_ws r1)) as [r2 |] eqn:E3; [| discriminate].
      apply after_length in E3.
      pose proof (lstrip_length is_json_ws r2) as Hw2.
      fold (skip_ws r2) in Hw2.
      intros H. apply IHe in H. lia.
Qed.

(** With more than twice the length of the text as fuel, the scanner gives
    the same answer for every larger amount: the fuel is never what stops
    it. *)
Lemma scan_fuel_enough (n : nat) :
  (forall s m, 2 * String.length s + 1 <= n -> n <= m ->
     scan_once m s = scan_once n s) /\
  (forall s acc m, 2 * String.length s <= n -> n <= m ->
     scan_members m s acc = scan_members n s acc) /\
  (forall s acc m, 2 * String.length s + 2 <= n -> n <= m ->
     scan_elements m s acc = scan_elements n s acc).
Proof.
  induction n as [| n [IHo [IHm IHe]]].
  - repeat split; intros s; intros; try lia.
    destruct s; [| simpl in *; lia]. destruct m; reflexivity.
  - repeat split.
    + intros s [| m] Hs Hm; [lia |]. rewrite !scan_once_S.
      destruct s as [| c s']; [reflexivity |].
      pose proof (lstrip_length is_json_ws s') as Hws.
      fold (skip_ws s') in Hws. simpl in Hs.
      rewrite (IHm (skip_ws s') [] m) by lia.
      rewrite (IHe (skip_ws s') [] m) by lia.
      reflexivity.
    + intros s acc [| m] Hs Hm; [lia |]. rewrite !scan_members_S.
      destruct (after dquote s) as [r0 |] eqn:E0; [| reflexivity].
      apply after_length in E0.
      destruct (scanstring r0) as [[key r1] |] eqn:E1; [| reflexivity].
      apply scanstring_length in E1.
      pose proof (lstrip_length is_json_ws r1) as Hw1.
      fold (skip_ws r1) in Hw1.
      destruct (after ":" (skip_ws r1)) as [r2 |] eqn:E2; [| reflexivity].
      apply after_length in E2.
      pose proof (lstrip_length is_json_ws r2) as Hw2.
      fold (skip_ws r2) in Hw2.
      rewrite (IHo (skip_ws r2) m) by lia.
      destruct (scan_once n (skip_ws r2)) as [[v0 r3] |] eqn:E3;
        [| reflexivity].
      apply (proj1 (scan_consumes n)) in E3.
      pose proof (lstrip_length is_json_ws r3) as Hw3.
      fold (skip_ws r3) in Hw3.
      destruct (after "}" (skip_ws r3)) as [rest |]; [reflexivity |].
      destruct (after "," (skip_ws r3)) as [r4 |] eqn:E5; [| reflexivity].
      apply after_length in E5.
      pose proof (lstrip_length is_json_ws r4) as Hw4.
      fold (skip_ws r4) in Hw4.
      apply IHm; lia.
    + intros s acc [| m] Hs Hm; [lia |]. rewrite !scan_elements_S.
      rewrite (IHo s m) by lia.
      destruct (scan_once n s) as [[v0 r1] |] eqn:E1; [| reflexivity].
      apply (proj1 (scan_consumes n)) in E1.
      pose proof (lstrip_length is_json_ws r1) as Hw1.
      fold (skip_ws r1) in Hw1.
      destruct (after "]" (skip_ws r1)) as [rest |]; [reflexivity |].
      destruct (after "," (skip_ws r1)) as [r2 |] eqn:E3; [| reflexivity].
      apply after_length in E3.
      pose proof (lstrip_length is_json_ws r2) as Hw2.
      fold (skip_ws r2) in Hw2.
      apply IHe; lia.
Qed.

(** [json_loads] does not depend on the fuel it gives the scanner. *)
Lemma json_loads_fuel (s : string) (fuel : nat) :
  2 * String.length (skip_ws s) + 1 <= fuel ->
  json_loads s =
    match scan_once fuel (skip_ws s) with
    | Some (v, rest) =>
        match skip_ws rest with
        | EmptyString => Ok v
        | _ => Raise JSONDecodeError
        end
    | None => Raise JSONDecodeError
    end.
Proof.
  intros H. unfold json_loads.
  rewrite (proj1 (scan_fuel_enough (S (2 * String.length (skip_ws s))))
             (skip_ws s) fuel) by lia.
  reflexivity.
Qed.

Local Open Scope Z_scope.

(** ** The validator *)

Lemma py_slice_to_length (n : nat) (v w : pyval) :
  py_slice_to n v = Ok w -> exists k, py_len w = Some k /\ (k <= n)%nat.
Proof.
  destruct v; simpl; intros H; inversion H; subst; simpl; eexists; split;
    try reflexivity.
  - apply substring_length_le.
  - apply firstn_le_length.
Qed.

Lemma validated_choice (data : pyval) (kvs : list (string * pyval))
  (valid : list string) (key fallback : string) (v w : pyval) :
  data = PDict kvs ->
  py_get data key PNone = Ok v ->
  (if py_in_strs v valid then py_get data key (PStr fallback)
   else Ok (PStr fallback)) = Ok w ->
  w = match assoc key kvs with
      | Some (PStr s) =>
          if existsb (String.eqb s) valid then PStr s else PStr fallback
      | _ => PStr fallback
      end.
Proof.
  intros -> Hv Hw. simpl in Hv, Hw.
  destruct (assoc key kvs) as [x |]; inversion Hv; subst v; simpl in Hw.
  - destruct x; simpl in Hw; try (now inversion Hw).
    destruct (existsb (String.eqb s) valid); now inversion Hw.
  - now inversion Hw.
Qed.


Lemma valid_choice_member (valid : list string) (fallback : string)
  (o : option pyval) :
  In fallback valid ->
  exists p,
    match o with
    | Some (PStr s) =>
        if existsb (String.eqb s) valid then PStr s else PStr fallback
    | _ => PStr fallback
    end = PStr p /\ In p valid.
Proof.
  intros Hin. destruct o as [[| | | | s | |] |]; try (now exists fallback).
  destruct (existsb (String.eqb s) valid) eqn:Hs.
  - exists s. split; [reflexivity | now apply existsb_eqb_In].
  - now exists fallback.
Qed.

Lemma pow2_pos (k : Z) : 0 <= k -> 0 < 2 ^ k.
Proof. intros Hk. apply Z.pow_pos_nonneg; lia. Qed.

Lemma num_gtb_ltb (a b : number) : num_gtb a b = num_ltb b a.
Proof.
  unfold num_gtb, num_ltb. rewrite (num_compare_antisym a b).
  destruct (num_compare a b) as [[| |] |]; reflexivity.
Qed.

(** A float above 1 is not below 0. *)
Lemma above_one_not_negative (f : spec_float) :
  num_gtb (NFloat f) (NInt 1) = true -> num_gtb (NInt 0) (NFloat f) = false.
Proof.
  unfold num_gtb, num_compare.
  destruct f as [s | s | | s m e]; cbn [xnum_of_number xnum_compare].
  - intros H; vm_compute in H; discriminate H.
  - destruct s; intros H; vm_compute in H; [discriminate H | reflexivity].
  - intros H; discriminate H.
  - pose proof (pow2_pos (e - Z.min e 0) ltac:(lia)) as Ha.
    pose proof (pow2_pos (0 - Z.min e 0) ltac:(lia)) as Hb.
    pose proof (pow2_pos (e - Z.min 0 e) ltac:(lia)) as Hd.
    destruct s.
    + assert (Z.neg m * 2 ^ (e - Z.min e 0) < 0)
        by (apply Z.mul_neg_pos; lia).
      destruct (Z.compare_spec (Z.neg m * 2 ^ (e - Z.min e 0))
                  (1 * 2 ^ (0 - Z.min e 0)));
        intros Hgt; try discriminate Hgt; exfalso; lia.
    + intros _.
      assert (0 < Z.pos m * 2 ^ (e - Z.min 0 e))
        by (apply Z.mul_pos_pos; lia).
      destruct (Z.compare_spec (0 * 2 ^ (0 - Z.min 0 e))
                  (Z.pos m * 2 ^ (e - Z.min 0 e)));
        try reflexivity; exfalso; lia.
Qed.

(** C1, amended.  Whenever [_validate_parsed_task] returns, its input is a
    mapping and the record it returns has: a priority among low, medium,
    high, urgent, which is the input's priority when that is one of the four
    and "medium" otherwise; a category among the seven values, the input's
    when valid and "other" otherwise; a title (a str, or a list when the
    input's title is a list) of length at most 255; the confidence 0.5 when
    the input has none; a confidence below 0 or above 1 clamped to 0 or to 1
    (not replaced by 0.5); and a confidence within [0, 1] unless it is a
    NaN. *)
Theorem validate_parsed_task_domains (data : pyval) (r : parsed_task) :
  _validate_parsed_task data = Ok r ->
  exists kvs, data = PDict kvs /\
    priority r =
      match assoc "priority" kvs with
      | Some (PStr p) =>
          if existsb (String.eqb p) valid_priorities
          then PStr p else PStr "medium"
      | _ => PStr "medium"
      end /\
    (exists p, priority r = PStr p /\ In p valid_priorities) /\
    category r =
      match assoc "category" kvs with
      | Some (PStr c) =>
          if existsb (String.eqb c) valid_categories
          then PStr c else PStr "other"
      | _ => PStr "other"
      end /\
    (exists c, category r = PStr c /\ In c valid_categories) /\
    (exists n, py_len (title r) = Some n /\ (n <= 255)%nat) /\
    (assoc "confidence" kvs = None -> confidence r = PFloat float_half) /\
    (forall x f, assoc "confidence" kvs = Some x -> py_float x = Ok f ->
       (num_ltb (NFloat f) (NInt 0) = true -> confidence r = PInt 0) /\
       (num_gtb (NFloat f) (NInt 1) = true -> confidence r = PInt 1)) /\
    (is_nan_value (confidence r) = false ->
     in_unit_interval (confidence r) = true).
Proof.
  unfold _validate_parsed_task. intros H.
  destruct data as [| | | | | | kvs]; try discriminate H.
  exists kvs. split; [reflexivity |].
  apply bind_Ok in H. destruct H as [t0 [Ht0 H]].
  apply bind_Ok in H. destruct H as [ttl [Httl H]].
  apply bind_Ok in H. destruct H as [dsc [_ H]].
  apply bind_Ok in H. destruct H as [p0 [Hp0 H]].
  apply bind_Ok in H. destruct H as [p [Hp H]].
  apply bind_Ok in H. destruct H as [c0 [Hc0 H]].
  apply bind_Ok in H. destruct H as [c [Hc H]].
  apply bind_Ok in H. destruct H as [due [_ H]].
  apply bind_Ok in H. destruct H as [x [Hx H]].
  apply bind_Ok in H. destruct H as [f [Hf H]].
  inversion H; subst r; clear H; simpl.
  pose proof (validated_choice _ kvs _ _ _ _ _ eq_refl Hp0 Hp) as Hprio.
  pose proof (validated_choice _ kvs _ _ _ _ _ eq_refl Hc0 Hc) as Hcat.
  repeat split.
  - exact Hprio.
  - rewrite Hprio. apply valid_choice_member. simpl; auto.
  - exact Hcat.
  - rewrite Hcat. apply valid_choice_member. simpl; auto 10.
  - eapply py_slice_to_length; eassumption.
  - intros Hnone. simpl in Hx. rewrite Hnone in Hx.
    inversion Hx; subst x. simpl in Hf. inversion Hf; subst f. reflexivity.
  - intros Hneg. simpl in Hx. rewrite H in Hx. inversion Hx; subst x.
    rewrite H0 in Hf. inversion Hf; subst f0.
    unfold py_max. rewrite num_gtb_ltb, Hneg. reflexivity.
  - intros Hbig. simpl in Hx. rewrite H in Hx. inversion Hx; subst x.
    rewrite H0 in Hf. inversion Hf; subst f0.
    unfold py_max, py_min. rewrite (above_one_not_negative _ Hbig).
    rewrite <- num_gtb_ltb, Hbig. reflexivity.
  - apply (clamp_in_unit_interval f). reflexivity.
Qed.

Lemma validate_parsed_task_domains_witness :
  let data :=
    PDict [("title", PStr "Call John"); ("priority", PStr "high");
           ("category", PStr "chores"); ("confidence", PInt 7)] in
  let r :=
    {| title := PStr "Call John"; description := PNone;
       priority := PStr "high"; category := PStr "other";
       due_date := PNone; confidence := PInt 1 |} in
  _validate_parsed_task data = Ok r /\
  (exists p, priority r = PStr p /\ In p valid_priorities) /\
  (exists c, category r = PStr c /\ In c valid_categories) /\
  (exists n, py_len (title r) = Some n /\ (n <= 255)%nat) /\
  in_unit_interval (confidence r) = true.
Proof.
  intros data r.
  assert (E : _validate_parsed_task data = Ok r) by reflexivity.
  destruct (validate_parsed_task_domains data r E)
    as [kvs [_ [_ [Hp [_ [Hc [Ht [_ [_ Hunit]]]]]]]]].
  split; [exact E |]. split; [exact Hp |]. split; [exact Hc |].
  split; [exact Ht |]. apply Hunit. reflexivity.
Defined.

(** C1 as stated fails: the out-of-domain confidence 2 becomes 1, not 0.5;
    and a NaN confidence comes back as a NaN, outside [0, 1]. *)
Lemma validate_parsed_task_counterexample :
  (exists r,
     _validate_parsed_task (PDict [("confidence", PInt 2)]) = Ok r /\
     confidence r = PInt 1 /\ confidence r <> PFloat float_half) /\
  (exists r,
     _validate_parsed_task (PDict [("confidence", PFloat S754_nan)]) = Ok r /\
     in_unit_interval (confidence r) = false).
Proof.
  split; eexists; (split; [reflexivity |]); simpl.
  - split; [reflexivity | discriminate].
  - reflexivity.
Qed.

(** ** The brace search does not see what the cleaning removes *)

Section BraceFree.
Variable p : ascii -> bool.
Hypothesis p_open : p "{" = false.
Hypothesis p_close : p "}" = false.

Lemma not_open (c : ascii) : p c = true -> Ascii.eqb c "{" = false.
Proof.
  intros Hc. destruct (Ascii.eqb c "{") eqn:E; [| reflexivity].
  apply Ascii.eqb_eq in E. subst c. congruence.
Qed.

Lemma not_close (c : ascii) : p c = true -> Ascii.eqb c "}" = false.
Proof.
  intros Hc. destruct (Ascii.eqb c "}") eqn:E; [| reflexivity].
  apply Ascii.eqb_eq in E. subst c. congruence.
Qed.

Lemma search_skip (c : ascii) (s : string) :
  p c = true -> re_search_braces (String c s) = re_search_braces s.
Proof. intros Hc. simpl. now rewrite (not_open c Hc). Qed.

Lemma search_lstrip (s : string) :
  re_search_braces (lstrip_by p s) = re_search_braces s.
Proof.
  induction s as [| c s IH]; [reflexivity |].
  simpl lstrip_by. destruct (p c) eqn:Hc; [| reflexivity].
  now rewrite IH, search_skip.
Qed.

Lemma rstrip_cons (c : ascii) (s : string) :
  rstrip_by p (String c s) =
    match rstrip_by p s with
    | EmptyString => if p c then EmptyString else String c EmptyString
    | r => String c r
    end.
Proof. reflexivity. Qed.

Lemma body_rstrip (s : string) :
  brace_body (rstrip_by p s) = brace_body s.
Proof.
  induction s as [| c s IH]; [reflexivity |].
  rewrite rstrip_cons.
  destruct (rstrip_by p s) as [| c' r] eqn:E.
  - destruct (p c) eqn:Hc; simpl.
    + rewrite (not_close c Hc), (not_open c Hc), <- IH. reflexivity.
    + rewrite <- IH. reflexivity.
  - simpl. simpl in IH. rewrite IH. reflexivity.
Qed.

Lemma search_rstrip (s : string) :
  re_search_braces (rstrip_by p s) = re_search_braces s.
Proof.
  induction s as [| c s IH]; [reflexivity |].
  rewrite rstrip_cons. pose proof (body_rstrip s) as Hb.
  destruct (rstrip_by p s) as [| c' r] eqn:E.
  - destruct (p c) eqn:Hc; simpl.
    + rewrite (not_open c Hc), <- IH. reflexivity.
    + rewrite <- Hb, <- IH. reflexivity.
  - simpl. simpl in IH, Hb. rewrite IH, Hb. reflexivity.
Qed.
End BraceFree.

Lemma search_drop_fence (s : string) :
  startswith "```" s = true ->
  re_search_braces (drop 3 s) = re_search_braces s.
Proof.
  destruct s as [| a [| b [| c s]]]; cbn [startswith drop];
    try discriminate; try (rewrite ?andb_false_r; discriminate).
  intros H. apply andb_prop in H. destruct H as [Ha H].
  apply andb_prop in H. destruct H as [Hb H].
  apply andb_prop in H. destruct H as [Hc _].
  apply Ascii.eqb_eq in Ha, Hb, Hc. subst a b c. reflexivity.
Qed.

Lemma search_opening_fence (s : string) :
  re_search_braces (re_sub_opening_fence s) = re_search_braces s.
Proof.
  unfold re_sub_opening_fence.
  destruct (startswith "```" s) eqn:Hs; [| reflexivity].
  rewrite <- (search_drop_fence s Hs).
  rewrite <- (search_lstrip is_word eq_refl (drop 3 s)).
  destruct (lstrip_by is_word (drop 3 s)) as [| c r]; [reflexivity |].
  destruct (Ascii.eqb c newline) eqn:Hc; [| reflexivity].
  apply Ascii.eqb_eq in Hc. subst c. reflexivity.
Qed.

Lemma closing_fence_unfold (text : string) :
  re_sub_closing_fence text =
    if (String.eqb text "```" || String.eqb text (String newline "```"))%bool
    then EmptyString
    else if (String.eqb text ("```" ++ String newline "")
             || String.eqb text
                  (String newline ("```" ++ String newline "")))%bool
    then String newline ""
    else
      match text with
      | EmptyString => EmptyString
      | String c text' => String c (re_sub_closing_fence text')
      end.
Proof. destruct text; reflexivity. Qed.

Lemma closing_fence_braces (s : string) :
  brace_body (re_sub_closing_fence s) = brace_body s /\
  re_search_braces (re_sub_closing_fence s) = re_search_braces s.
Proof.
  induction s as [| c s [IHb IHs]]; [split; reflexivity |].
  rewrite closing_fence_unfold.
  destruct (String.eqb (String c s) "```") eqn:E1.
  { apply String.eqb_eq in E1. rewrite E1. split; reflexivity. }
  destruct (String.eqb (String c s) (String newline "```")) eqn:E2.
  { apply String.eqb_eq in E2. rewrite E2. split; reflexivity. }
  destruct (String.eqb (String c s) ("```" ++ String newline "")) eqn:E3.
  { apply String.eqb_eq in E3. rewrite E3. split; reflexivity. }
  destruct (String.eqb (String c s)
              (String newline ("```" ++ String newline ""))) eqn:E4.
  { apply String.eqb_eq in E4. rewrite E4. split; reflexivity. }
  cbn [orb brace_body re_search_braces]. rewrite IHb, IHs.
  split; reflexivity.
Qed.

Lemma search_clean_response (text : string) :
  re_search_braces (clean_response text) = re_search_braces text.
Proof.
  unfold clean_response, strip.
  assert (Hstrip : re_search_braces
                     (rstrip_by is_space (lstrip_by is_space text))
                   = re_search_braces text).
  { rewrite (search_rstrip is_space eq_refl eq_refl).
    apply (search_lstrip is_space eq_refl). }
  destruct (startswith "```" _); [| exact Hstrip].
  rewrite (proj2 (closing_fence_braces _)), search_opening_fence.
  exact Hstrip.
Qed.


(** ** The task map *)

Lemma xnum_eqb_eq (a b : xnum) : xnum_eqb a b = true -> a = b.
Proof.
  destruct a as [| s1 | m1 e1], b as [| s2 | m2 e2]; simpl; try discriminate.
  - intros H. apply Bool.eqb_prop in H. now subst.
  - intros H. apply andb_prop in H. destruct H as [Hm He].
    apply Z.eqb_eq in Hm, He. now subst.
Qed.

Lemma hkey_eqb_eq (a b : hkey) : hkey_eqb a b = true -> a = b.
Proof.
  destruct a as [| s | x], b as [| t | y]; simpl; try discriminate.
  - reflexivity.
  - intros H. apply String.eqb_eq in H. now subst.
  - intros H. apply xnum_eqb_eq in H. now subst.
Qed.

Lemma hkey_eqb_sym (a b : hkey) : hkey_eqb a b = hkey_eqb b a.
Proof.
  destruct a as [| s | x], b as [| t | y]; simpl; try reflexivity.
  - apply String.eqb_sym.
  - destruct x as [| s1 | m1 e1], y as [| s2 | m2 e2]; simpl; try reflexivity.
    + destruct s1, s2; reflexivity.
    + now rewrite (Z.eqb_sym m1 m2), (Z.eqb_sym e1 e2).
Qed.

Lemma keymap_get_set (k k' : hkey) (v : pyval) (m : keymap) :
  keymap_get k (keymap_set k' v m) =
    if hkey_eqb k k' then Some v else keymap_get k m.
Proof.
  induction m as [| [k0 v0] m IH]; simpl; [reflexivity |].
  destruct (hkey_eqb k' k0) eqn:E0; simpl.
  - apply hkey_eqb_eq in E0. subst k0.
    destruct (hkey_eqb k k'); reflexivity.
  - rewrite IH. destruct (hkey_eqb k k0) eqn:E1; [| reflexivity].
    apply hkey_eqb_eq in E1. subst k0.
    rewrite hkey_eqb_sym, E0. reflexivity.
Qed.

Lemma build_task_map_get (tasks : list pyval) :
  forall (m tm : keymap),
    build_task_map tasks m = Ok tm ->
    forall k, keymap_get k tm = task_with_key k tasks (keymap_get k m).
Proof.
  induction tasks as [| t tasks IH]; intros m tm H k; simpl in *.
  - now inversion H.
  - apply bind_Ok in H. destruct H as [id [Hid H]].
    apply bind_Ok in H. destruct H as [k0 [Hk0 H]].
    rewrite (IH _ _ H k), keymap_get_set.
    unfold task_key. rewrite Hid. simpl. rewrite Hk0. reflexivity.
Qed.

Lemma build_task_map_total (tasks : list pyval) :
  (forall t, In t tasks -> exists k, task_key t = Ok k) ->
  forall m, exists tm, build_task_map tasks m = Ok tm.
Proof.
  induction tasks as [| t tasks IH]; intros Hk m; simpl.
  - now exists m.
  - destruct (Hk t (or_introl eq_refl)) as [k Ht].
    unfold task_key in Ht. apply bind_Ok in Ht. destruct Ht as [id [Hid Ht]].
    rewrite Hid. simpl. rewrite Ht. simpl.
    apply IH. intros t' Hin. apply Hk. now right.
Qed.

Lemma task_ids_total (tasks : list pyval) :
  (forall t, In t tasks -> exists k, task_key t = Ok k) ->
  exists ids, mapM (fun t => py_getitem t "id") tasks = Ok ids.
Proof.
  induction tasks as [| t tasks IH]; intros Hk; simpl.
  - now exists [].
  - destruct (Hk t (or_introl eq_refl)) as [k Ht].
    unfold task_key in Ht. apply bind_Ok in Ht. destruct Ht as [id [Hid _]].
    rewrite Hid. simpl.
    destruct IH as [ids Hids]; [intros t' Hin; apply Hk; now right |].
    rewrite Hids. simpl. now eexists.
Qed.

Lemma pick_tasks_emitted (tasks : list pyval) (tm : keymap) :
  (forall k, keymap_get k tm = task_with_key k tasks None) ->
  forall order,
    (forall tid, In tid order -> exists k, py_hash_key tid = Ok k) ->
    pick_tasks tm order = Ok (flat_map (emitted tasks) order).
Proof.
  intros Htm. induction order as [| tid order IH]; intros Hh; simpl.
  - reflexivity.
  - destruct (Hh tid (or_introl eq_refl)) as [k Hk].
    rewrite Hk. simpl. rewrite IH by (intros t' Hin; apply Hh; now right).
    simpl. unfold emitted. rewrite Hk, Htm.
    destruct (task_with_key k tasks None); reflexivity.
Qed.

Lemma task_with_key_found (k : hkey) (tasks : list pyval) :
  forall found t,
    task_with_key k tasks found = Some t ->
    found = Some t \/ (In t tasks /\ task_key t = Ok k).
Proof.
  induction tasks as [| t0 tasks IH]; intros found t H; simpl in H.
  - now left.
  - apply IH in H. destruct H as [H | [Hin Hkey]].
    + destruct (task_key t0) as [k0 |] eqn:E0; [| now left].
      destruct (hkey_eqb k k0) eqn:Ek; [| now left].
      apply hkey_eqb_eq in Ek. subst k0. inversion H; subst t0.
      right. split; [now left | exact E0].
    + right. split; [now right | exact Hkey].
Qed.

Lemma emitted_sound (tasks order : list pyval) (t : pyval) :
  In t (flat_map (emitted tasks) order) ->
  In t tasks /\ exists tid, In tid order /\ task_key t = py_hash_key tid.
Proof.
  intros H. apply in_flat_map in H. destruct H as [tid [Htid Ht]].
  unfold emitted in Ht. destruct (py_hash_key tid) as [k |] eqn:Ek; [| easy].
  destruct (task_with_key k tasks None) as [t' |] eqn:Et; [| easy].
  destruct Ht as [<- | []].
  apply task_with_key_found in Et. destruct Et as [Et | [Hin Hkey]]; [easy |].
  split; [exact Hin |]. exists tid. split; [exact Htid |]. congruence.
Qed.

(** C4.  When the backend answers with an order (a list of hashable ids) for
    tasks that carry hashable ids, the result lists, for each id of the
    order in turn, the input task with that id, skipping the ids no task
    has; every task of the result is an input task whose id is in the order;
    and an input task whose id the order omits is absent from the result. *)
Theorem prioritize_tasks_follows_order
  (generate_content : backend) (tasks order : list pyval)
  (lines : list (pyval * pyval * pyval * pyval)) (response : string)
  (d : list (string * pyval)) :
  tasks <> [] ->
  mapM task_line tasks = Ok lines ->
  (forall t, In t tasks -> exists k, task_key t = Ok k) ->
  generate_content (PrioritizePrompt lines) = Ok response ->
  _extract_json response = Ok (PDict d) ->
  assoc "order" d = Some (PList order) ->
  (forall tid, In tid order -> exists k, py_hash_key tid = Ok k) ->
  exists r,
    outcome (prioritize_tasks {| model := Some generate_content |} tasks)
      = Ok r /\
    prioritized_tasks r = flat_map (emitted tasks) order /\
    (forall t, In t (prioritized_tasks r) ->
       In t tasks /\ exists tid, In tid order /\ task_key t = py_hash_key tid) /\
    (forall t k, task_key t = Ok k ->
       (forall tid, In tid order -> py_hash_key tid <> Ok k) ->
       ~ In t (prioritized_tasks r)).
Proof.
  intros Hne Hlines Hkeys Hgen Hjson Horder Hhash.
  destruct (task_ids_total tasks Hkeys) as [ids Hids].
  destruct (build_task_map_total tasks Hkeys []) as [tm Htm].
  pose proof (pick_tasks_emitted tasks tm
                (fun k => build_task_map_get tasks [] tm Htm k) order Hhash)
    as Hpick.
  destruct (py_get (PDict d) "reasoning" (PStr "Prioritized by AI"))
    as [why | e] eqn:Hwhy;
    [| simpl in Hwhy; destruct (assoc "reasoning" d); discriminate Hwhy].
  exists {| prioritized_tasks := flat_map (emitted tasks) order;
            reasoning := Reasoning why |}.
  split; [| split; [reflexivity | split]].
  - unfold prioritize_tasks. destruct tasks as [| t0 tasks']; [easy |].
    cbn [model]. rewrite Hlines. cbn [outcome]. rewrite Hgen.
    cbn [bind]. rewrite Hjson. cbn [bind]. rewrite Hids. cbn [bind].
    cbn [py_get has_key]. rewrite Horder. cbn [bind]. rewrite Htm.
    cbn [bind py_iter]. rewrite Hpick. cbn [bind].
    cbn [py_get] in Hwhy. rewrite Hwhy. reflexivity.
  - cbn [prioritized_tasks]. intros t Ht. now apply emitted_sound.
  - cbn [prioritized_tasks]. intros t k Hk Habsent Hin.
    apply emitted_sound in Hin. destruct Hin as [_ [tid [Htid Heq]]].
    apply (Habsent tid Htid). congruence.
Qed.

Lemma prioritize_tasks_follows_order_witness :
  let tasks := [task_n 1 "one"; task_n 2 "two"; task_n 3 "three"] in
  let generate_content : backend :=
    fun _ => Ok (dq "{'order': [3, 1], 'reasoning': 'deadlines first'}") in
  exists r,
    outcome (prioritize_tasks {| model := Some generate_content |} tasks)
      = Ok r /\
    prioritized_tasks r = [task_n 3 "three"; task_n 1 "one"] /\
    ~ In (task_n 2 "two") (prioritized_tasks r).
Proof.
  intros tasks generate_content.
  destruct (prioritize_tasks_follows_order generate_content tasks
              [PInt 3; PInt 1]
              [(PInt 1, PStr "one", PNone, PStr "work");
               (PInt 2, PStr "two", PNone, PStr "work");
               (PInt 3, PStr "three", PNone, PStr "work")]
              (dq "{'order': [3, 1], 'reasoning': 'deadlines first'}")
              [("order", PList [PInt 3; PInt 1]);
               ("reasoning", PStr "deadlines first")])
    as [r [Hr [Hshape [_ Habsent]]]].
  - discriminate.
  - reflexivity.
  - intros t [<- | [<- | [<- | []]]]; eexists; reflexivity.
  - reflexivity.
  - vm_compute. reflexivity.
  - reflexivity.
  - intros tid [<- | [<- | []]]; eexists; reflexivity.
  - exists r. split; [exact Hr |]. split; [exact Hshape |].
    apply (Habsent (task_n 2 "two") (HNum (XDy 1 1)) eq_refl).
    intros tid [<- | [<- | []]]; discriminate.
Defined.

(** ** The extractor *)



(** ** parse_natural_language *)

Lemma validate_raises_on_bad_confidence
  (d : list (string * pyval)) (x : pyval) (e : exn) :
  assoc "confidence" d = Some x -> py_float x = Raise e ->
  exists e', _validate_parsed_task (PDict d) = Raise e'.
Proof.
  intros Hx Hf.
  destruct (_validate_parsed_task (PDict d)) as [r | e'] eqn:E;
    [exfalso | now exists e'].
  unfold _validate_parsed_task in E.
  do 8 (apply bind_Ok in E; destruct E as [? [_ E]]).
  apply bind_Ok in E. destruct E as [y [Hy E]].
  apply bind_Ok in E. destruct E as [f [Hf' _]].
  cbn [py_get] in Hy. rewrite Hx in Hy. inversion Hy; subst y. congruence.
Qed.

(** C2.  [parse_natural_language] never raises; an exception from the backend
    call, from the extraction or from the validation (a confidence that
    [float] rejects among them) turns into the fallback parse of the input
    text, the same result for all of them. *)
Theorem parse_natural_language_catches_everything
  (self : AIService) (today text : string) :
  (exists t, outcome (parse_natural_language self today text) = Ok t) /\
  (forall generate_content,
     model self = Some generate_content ->
     let answer := generate_content (ParsePrompt text today) in
     let fallback := Ok (_fallback_parse text) in
     (forall e, answer = Raise e ->
        outcome (parse_natural_language self today text) = fallback) /\
     (forall response e,
        answer = Ok response -> _extract_json response = Raise e ->
        outcome (parse_natural_language self today text) = fallback) /\
     (forall response data e,
        answer = Ok response -> _extract_json response = Ok data ->
        _validate_parsed_task data = Raise e ->
        outcome (parse_natural_language self today text) = fallback) /\
     (forall response d x e,
        answer = Ok response -> _extract_json response = Ok (PDict d) ->
        assoc "confidence" d = Some x -> py_float x = Raise e ->
        outcome (parse_natural_language self today text) = fallback)).
Proof.
  unfold parse_natural_language. destruct self as [[generate_content |]].
  - cbn [model]. split.
    + cbn [outcome].
      destruct (_ <- _ ;; _) as [t | e]; eexists; reflexivity.
    + intros g Hg. inversion Hg; subst g. cbn [outcome]. cbv zeta.
      repeat split.
      * intros e ->. reflexivity.
      * intros response e -> He. cbn [bind]. rewrite He. reflexivity.
      * intros response data e -> Hd He. cbn [bind].
        rewrite Hd. cbn [bind]. rewrite He. reflexivity.
      * intros response d x e -> Hd Hx Hf. cbn [bind]. rewrite Hd. cbn [bind].
        destruct (validate_raises_on_bad_confidence d x e Hx Hf) as [e' ->].
        reflexivity.
  - cbn [model]. split; [eexists; reflexivity | discriminate].
Qed.

Lemma parse_natural_language_catches_everything_witness :
  let text := "email the report to Dana by Friday" in
  let malformed : backend :=
    fun _ => Ok (dq "{'title': 'Email report', 'confidence': 'very high'}") in
  let offline : backend := fun _ => Raise (BackendError "connection reset") in
  outcome (parse_natural_language {| model := Some malformed |}
             "2024-05-01" text) = Ok (_fallback_parse text) /\
  outcome (parse_natural_language {| model := Some malformed |}
             "2024-05-01" text)
  = outcome (parse_natural_language {| model := Some offline |}
               "2024-05-01" text).
Proof.
  intros text malformed offline.
  destruct (parse_natural_language_catches_everything
              {| model := Some malformed |} "2024-05-01" text)
    as [_ Hbad].
  destruct (Hbad malformed eq_refl) as [_ [_ [_ Hconf]]].
  destruct (parse_natural_language_catches_everything
              {| model := Some offline |} "2024-05-01" text)
    as [_ Hoff].
  destruct (Hoff offline eq_refl) as [Hnet _].
  assert (H1 : outcome (parse_natural_language {| model := Some malformed |}
                          "2024-05-01" text) = Ok (_fallback_parse text)).
  { apply (Hconf (dq "{'title': 'Email report', 'confidence': 'very high'}")
             [("title", PStr "Email report");
                    ("confidence", PStr "very high")]
             (PStr "very high") ValueError);
      [reflexivity | vm_compute; reflexivity | reflexivity | reflexivity]. }
  split; [exact H1 |].
  rewrite H1. symmetry.
  apply (Hnet (BackendError "connection reset")). reflexivity.
Defined.

(** C10.  When the decoded answer maps "title" to null, the validator raises
    (slicing [None]) and [parse_natural_language] returns the fallback parse,
    titled with the input text; when "title" is absent and the validation
    succeeds, the title is "New Task". *)
Theorem parse_natural_language_null_title
  (generate_content : backend) (today text response : string)
  (d : list (string * pyval)) :
  generate_content (ParsePrompt text today) = Ok response ->
  _extract_json response = Ok (PDict d) ->
  (assoc "title" d = Some PNone ->
     _validate_parsed_task (PDict d) = Raise TypeError /\
     exists t,
       outcome (parse_natural_language {| model := Some generate_content |}
                  today text) = Ok t /\
       t = _fallback_parse text /\
       title t = PStr (str_slice_to 100 text)) /\
  (assoc "title" d = None ->
     forall t, _validate_parsed_task (PDict d) = Ok t ->
       outcome (parse_natural_language {| model := Some generate_content |}
                  today text) = Ok t /\
       title t = PStr "New Task").
Proof.
  intros Hgen Hjson. split.
  - intros Hnull.
    assert (Hraise : _validate_parsed_task (PDict d) = Raise TypeError).
    { unfold _validate_parsed_task. cbn [py_get]. rewrite Hnull. reflexivity. }
    split; [exact Hraise |].
    exists (_fallback_parse text). split; [| split; reflexivity].
    unfold parse_natural_language. cbn [model outcome].
    rewrite Hgen. cbn [bind]. rewrite Hjson. cbn [bind]. rewrite Hraise.
    reflexivity.
  - intros Habsent t Ht. split.
    + unfold parse_natural_language. cbn [model outcome].
      rewrite Hgen. cbn [bind]. rewrite Hjson. cbn [bind]. rewrite Ht.
      reflexivity.
    + unfold _validate_parsed_task in Ht. cbn [py_get] in Ht.
      rewrite Habsent in Ht. cbn [bind py_slice_to] in Ht.
      do 8 (apply bind_Ok in Ht; destruct Ht as [? [_ Ht]]).
      inversion Ht; subst t. reflexivity.
Qed.

Lemma parse_natural_language_null_title_witness :
  let text := "call the dentist tomorrow" in
  let generate_content : backend :=
    fun _ => Ok (dq "{'title': null, 'priority': 'high', 'confidence': 0.9}") in
  exists t,
    outcome (parse_natural_language {| model := Some generate_content |}
               "2024-05-01" text) = Ok t /\
    title t = PStr text /\ priority t = PStr "medium".
Proof.
  intros text generate_content.
  destruct (parse_natural_language_null_title generate_content
              "2024-05-01" text
              (dq "{'title': null, 'priority': 'high', 'confidence': 0.9}")
              [("title", PNone); ("priority", PStr "high");
               ("confidence",
                 PFloat (S754_finite false 8106479329266893 (-53)))])
    as [Hnull _].
  - reflexivity.
  - vm_compute. reflexivity.
  - destruct (Hnull eq_refl) as [_ [t [Ht [Heq Htitle]]]].
    exists t. split; [exact Ht |]. split; [exact Htitle |].
    rewrite Heq. reflexivity.
Defined.

(** C5.  With the backend unavailable, [parse_natural_language] returns the
    input text cut to its first 100 characters as title, no description,
    priority "medium", category "other", no due date and confidence 0.5, and
    sends nothing to the backend. *)
Theorem parse_natural_language_unavailable
  (self : AIService) (today text : string) :
  is_available self = false ->
  outcome (parse_natural_language self today text)
  = Ok {| title := PStr (str_slice_to 100 text);
          description := PNone;
          priority := PStr "medium";
          category := PStr "other";
          due_date := PNone;
          confidence := PFloat float_half |} /\
  calls (parse_natural_language self today text) = [] /\
  String.length (str_slice_to 100 text) = Nat.min 100 (String.length text) /\
  (exists rest, text = str_slice_to 100 text ++ rest) /\
  float_of_decimal false 5 (-1) = float_half.
Proof.
  unfold is_available, parse_natural_language.
  destruct (model self); [discriminate |]. intros _.
  split; [reflexivity |]. split; [reflexivity |].
  split; [apply substring_length_min |].
  split; [apply substring_prefix | reflexivity].
Qed.

Lemma parse_natural_language_unavailable_witness :
  outcome (parse_natural_language {| model := None |} "2024-05-01"
             "water the plants")
  = Ok {| title := PStr "water the plants";
          description := PNone;
          priority := PStr "medium";
          category := PStr "other";
          due_date := PNone;
          confidence := PFloat float_half |} /\
  calls (parse_natural_language {| model := None |} "2024-05-01"
           "water the plants") = [].
Proof.
  destruct (parse_natural_language_unavailable {| model := None |}
              "2024-05-01" "water the plants" eq_refl) as [Hout [Hcalls _]].
  split; [exact Hout | exact Hcalls].
Defined.

(** ** prioritize_tasks, empty list *)

(** C7.  On an empty task list [prioritize_tasks] returns the empty list
    with the reasoning "AI unavailable - using default order", whether or
    not the backend is available, and sends nothing to the backend. *)
Theorem prioritize_tasks_empty (self : AIService) :
  outcome (prioritize_tasks self [])
  = Ok {| prioritized_tasks := [];
          reasoning :=
            Reasoning (PStr "AI unavailable - using default order") |} /\
  calls (prioritize_tasks self []) = [].
Proof.
  unfold prioritize_tasks. destruct (model self); split; reflexivity.
Qed.

(** ** _fallback_insights *)

(** C6.  The tips of [_fallback_insights] are, in this order: the
    breaking-tasks tip if the completion rate is below 0.5, the
    urgent-review tip if the urgent count is above 3, and the daily-progress
    tip; cutting to three entries drops none of them, and when both
    conditions hold the list is exactly these three. *)
Theorem fallback_insights_tips (stats : pyval) (r : insights) :
  _fallback_insights stats = Ok r ->
  exists rate by_priority urgent low_rate many_urgent,
    py_get stats "completion_rate" (PInt 0) = Ok rate /\
    py_lt_number rate (NFloat float_half) = Ok low_rate /\
    py_get stats "by_priority" (PDict []) = Ok by_priority /\
    py_get by_priority "urgent" (PInt 0) = Ok urgent /\
    py_gt_number urgent (NInt 3) = Ok many_urgent /\
    ai_tips r = ((if low_rate then [tip_split] else [])
                 ++ (if many_urgent then [tip_urgent] else [])
                 ++ [tip_daily])%list /\
    (List.length (ai_tips r) <= 3)%nat /\
    (low_rate = true -> many_urgent = true ->
     ai_tips r = [tip_split; tip_urgent; tip_daily]).
Proof.
  unfold _fallback_insights. intros H.
  apply bind_Ok in H. destruct H as [rate [Hrate H]].
  apply bind_Ok in H. destruct H as [low [Hlow H]].
  apply bind_Ok in H. destruct H as [bp [Hbp H]].
  apply bind_Ok in H. destruct H as [urgent [Hurgent H]].
  apply bind_Ok in H. destruct H as [many [Hmany H]].
  apply bind_Ok in H. destruct H as [total [_ H]].
  apply bind_Ok in H. destruct H as [rate' [_ H]].
  apply bind_Ok in H. destruct H as [u [_ H]].
  inversion H; subst r; clear H. cbn [ai_tips].
  exists rate, bp, urgent, low, many.
  repeat (split; [assumption |]).
  destruct low, many; repeat split; simpl; try lia; try discriminate.
Qed.

Lemma fallback_insights_tips_witness :
  let stats :=
    PDict [("total", PInt 10); ("completed", PInt 3);
           ("completion_rate", PFloat (float_of_decimal false 3 (-1)));
           ("by_priority", PDict [("urgent", PInt 5); ("low", PInt 5)])] in
  exists r,
    _fallback_insights stats = Ok r /\
    ai_tips r = [tip_split; tip_urgent; tip_daily] /\
    List.length (ai_tips r) = 3%nat.
Proof.
  intros stats.
  destruct (_fallback_insights stats) as [r |] eqn:E; [| discriminate E].
  exists r. split; [reflexivity |].
  destruct (fallback_insights_tips stats r E)
    as [rate [bp [urgent [low [many
         [Hrate [Hlow [Hbp [Hurgent [Hmany [_ [_ Hboth]]]]]]]]]]]].
  inversion Hrate; subst rate. inversion Hbp; subst bp.
  inversion Hurgent; subst urgent.
  inversion Hlow; subst low. inversion Hmany; subst many.
  rewrite (Hboth eq_refl eq_refl). split; reflexivity.
Defined.

(** ** categorize_task *)

Lemma normalize_category_valid (answer : string) :
  In (normalize_category answer) valid_categories.
Proof.
  unfold normalize_category.
  destruct (existsb _ valid_categories) eqn:E.
  - now apply existsb_eqb_In.
  - simpl. auto 10.
Qed.

(** C9.  The category normalisation is idempotent, and its result is always
    one of the seven categories. *)
Theorem normalize_category_idempotent (answer : string) :
  normalize_category (normalize_category answer) = normalize_category answer
  /\ In (normalize_category answer) valid_categories.
Proof.
  split; [| apply normalize_category_valid].
  pose proof (normalize_category_valid answer) as H.
  simpl in H.
  repeat (destruct H as [<- | H]; [reflexivity |]). destruct H.
Qed.

Lemma categorize_task_normalizes
  (generate_content : backend) (ttl dsc answer : string) :
  generate_content (CategorizePrompt ttl dsc) = Ok answer ->
  outcome (categorize_task {| model := Some generate_content |} ttl dsc)
  = Ok (normalize_category answer).
Proof.
  intros H. unfold categorize_task. cbn [model outcome]. now rewrite H.
Qed.

(** ** Sample runs *)

Example extract_json_fenced :
  _extract_json
    (dq ("```json" ++ String newline "{'title': 'Call John', 'priority': 'high'}"
         ++ String newline "```"))
  = Ok (PDict [("title", PStr "Call John"); ("priority", PStr "high")]).
Proof. reflexivity. Qed.

Example extract_json_in_prose :
  _extract_json (dq "Here you go: {'order': [2, 1]} - anything else?")
  = Ok (PDict [("order", PList [PInt 2; PInt 1])]).
Proof. reflexivity. Qed.

Example extract_json_nothing :
  _extract_json "I could not parse that request." = Ok (PDict []).
Proof. reflexivity. Qed.

Example extract_json_array :
  _extract_json "[3, 1]" = Ok (PList [PInt 3; PInt 1]).
Proof. reflexivity. Qed.

Example float_of_str_samples :
  map float_of_str [" 0.5 "; "1_000"; "-inf"; "NaN"; "high"; "1e"] =
  [Some float_half; Some (S754_finite false 8796093022208000 (-43));
   Some (S754_infinity true); Some S754_nan; None; None].
Proof. reflexivity. Qed.

Example validate_string_confidence :
  option_map confidence
    match _validate_parsed_task (PDict [("confidence", PStr "0.5")]) with
    | Ok t => Some t
    | Raise _ => None
    end = Some (PFloat float_half).
Proof. reflexivity. Qed.

Example prioritize_non_mapping_answer :
  outcome (prioritize_tasks {| model := Some (fun _ => Ok "[2, 1]") |}
             [task_n 1 "one"; task_n 2 "two"])
  = Ok {| prioritized_tasks := [task_n 1 "one"; task_n 2 "two"];
          reasoning := ErrorReasoning AttributeError |}.
Proof. reflexivity. Qed.

(** * Further properties *)

(** ** Trimming and lower-casing *)

Lemma append_assoc (a b c : string) : (a ++ b) ++ c = a ++ (b ++ c).
Proof. induction a as [| x a IH]; simpl; [reflexivity | now rewrite IH]. Qed.

Lemma append_empty_r (a : string) : a ++ "" = a.
Proof. induction a as [| x a IH]; simpl; [reflexivity | now rewrite IH]. Qed.

Lemma lstrip_app_all (p : ascii -> bool) (ws s : string) :
  string_forall p ws = true ->
  lstrip_by p (ws ++ s) = lstrip_by p s.
Proof.
  induction ws as [| c ws IH]; simpl; [reflexivity |].
  intros H. apply andb_prop in H. destruct H as [Hc Hws].
  rewrite Hc. now apply IH.
Qed.

Lemma rstrip_all (p : ascii -> bool) (ws : string) :
  string_forall p ws = true -> rstrip_by p ws = "".
Proof.
  induction ws as [| c ws IH]; simpl; [reflexivity |].
  intros H. apply andb_prop in H. destruct H as [Hc Hws].
  rewrite (IH Hws), Hc. reflexivity.
Qed.

Lemma rstrip_app_all (p : ascii -> bool) (s ws : string) :
  string_forall p ws = true ->
  rstrip_by p (s ++ ws) = rstrip_by p s.
Proof.
  intros Hws. induction s as [| c s IH]; simpl.
  - now apply rstrip_all.
  - now rewrite IH.
Qed.

(** Trimming does not see the whitespace around a text. *)
Lemma strip_padding (ws1 s ws2 : string) :
  string_forall is_space ws1 = true -> string_forall is_space ws2 = true ->
  strip (ws1 ++ s ++ ws2) = strip s.
Proof.
  intros H1 H2. unfold strip. rewrite (lstrip_app_all _ _ _ H1).
  induction s as [| c s IH]; simpl.
  - replace ws2 with (ws2 ++ "") by apply append_empty_r.
    rewrite (lstrip_app_all _ ws2 "" H2). reflexivity.
  - destruct (is_space c); [exact IH |].
    change (String c (s ++ ws2)) with (String c s ++ ws2).
    now apply rstrip_app_all.
Qed.

Lemma lstrip_head (p : ascii -> bool) (s : string) :
  match lstrip_by p s with
  | EmptyString => True
  | String c _ => p c = false
  end.
Proof.
  induction s as [| c s IH]; simpl; [exact I |].
  destruct (p c) eqn:E; [exact IH | exact E].
Qed.

Lemma lstrip_fixed (p : ascii -> bool) (c : ascii) (s : string) :
  p c = false -> lstrip_by p (String c s) = String c s.
Proof. intros H. simpl. now rewrite H. Qed.

Lemma rstrip_keeps_head (p : ascii -> bool) (c : ascii) (s : string) :
  p c = false -> exists r, rstrip_by p (String c s) = String c r.
Proof.
  intros H. simpl. destruct (rstrip_by p s) as [| c' r].
  - rewrite H. now exists "".
  - now exists (String c' r).
Qed.

Lemma rstrip_idem (p : ascii -> bool) (s : string) :
  rstrip_by p (rstrip_by p s) = rstrip_by p s.
Proof.
  induction s as [| c s IH]; simpl; [reflexivity |].
  destruct (rstrip_by p s) as [| c' r] eqn:E.
  - destruct (p c) eqn:Hc; simpl; [reflexivity | now rewrite Hc].
  - simpl. simpl in IH. rewrite IH. reflexivity.
Qed.

Lemma strip_idem (s : string) : strip (strip s) = strip s.
Proof.
  unfold strip. pose proof (lstrip_head is_space s) as Hh.
  destruct (lstrip_by is_space s) as [| c r] eqn:E; [reflexivity |].
  destruct (rstrip_keeps_head is_space c r Hh) as [r' Hr].
  rewrite Hr, (lstrip_fixed _ _ _ Hh), <- Hr. apply rstrip_idem.
Qed.

Lemma lower_char_idem (c : ascii) : lower_char (lower_char c) = lower_char c.
Proof. destruct c as [[] [] [] [] [] [] [] []]; reflexivity. Qed.

Lemma lower_char_space (c : ascii) : is_space (lower_char c) = is_space c.
Proof. destruct c as [[] [] [] [] [] [] [] []]; reflexivity. Qed.

Lemma lower_idem (s : string) : lower (lower s) = lower s.
Proof.
  induction s as [| c s IH]; simpl; [reflexivity |].
  now rewrite lower_char_idem, IH.
Qed.

Lemma lower_lstrip (s : string) :
  lower (lstrip_by is_space s) = lstrip_by is_space (lower s).
Proof.
  induction s as [| c s IH]; simpl; [reflexivity |].
  rewrite lower_char_space. destruct (is_space c); [exact IH | reflexivity].
Qed.

Lemma lower_rstrip (s : string) :
  lower (rstrip_by is_space s) = rstrip_by is_space (lower s).
Proof.
  induction s as [| c s IH]; simpl; [reflexivity |].
  rewrite <- IH, lower_char_space.
  destruct (rstrip_by is_space s) as [| c' r]; simpl.
  - destruct (is_space c); reflexivity.
  - reflexivity.
Qed.

Lemma lower_strip (s : string) : lower (strip s) = strip (lower s).
Proof. unfold strip. now rewrite lower_rstrip, lower_lstrip. Qed.

(** ** categorize_task *)

(** X1.  [categorize_task] never raises and always answers with one of the
    seven categories, whatever the backend returns or raises; it sends at
    most one prompt, and none when the backend is unavailable, where the
    answer is "other". *)
Theorem categorize_task_always_valid
  (self : AIService) (ttl dsc : string) :
  (exists c, outcome (categorize_task self ttl dsc) = Ok c /\
             In c valid_categories) /\
  (List.length (calls (categorize_task self ttl dsc)) <= 1)%nat /\
  (is_available self = false ->
   outcome (categorize_task self ttl dsc) = Ok "other" /\
   calls (categorize_task self ttl dsc) = []).
Proof.
  unfold categorize_task, is_available.
  destruct (model self) as [g |]; cbn [outcome calls].
  - split; [| split; [simpl; lia | discriminate]].
    destruct (g (CategorizePrompt ttl dsc)) as [answer | e]; cbn [bind try_except].
    + exists (normalize_category answer).
      split; [reflexivity | apply normalize_category_valid].
    + exists "other". split; [reflexivity | simpl; auto 10].
  - split; [| split; [simpl; lia | intros _; split; reflexivity]].
    exists "other". split; [reflexivity | simpl; auto 10].
Qed.

Lemma categorize_task_always_valid_witness :
  outcome (categorize_task {| model := None |} "Team meeting" "") = Ok "other"
  /\ calls (categorize_task {| model := None |} "Team meeting" "") = [].
Proof.
  exact (proj2 (proj2 (categorize_task_always_valid {| model := None |}
                         "Team meeting" "")) eq_refl).
Defined.

Lemma normalize_category_strip (answer : string) :
  normalize_category (strip answer) = normalize_category answer.
Proof. unfold normalize_category. now rewrite strip_idem. Qed.

Lemma normalize_category_lower (answer : string) :
  normalize_category (lower answer) = normalize_category answer.
Proof.
  unfold normalize_category. now rewrite <- lower_strip, lower_idem.
Qed.

Lemma normalize_category_padding (ws1 answer ws2 : string) :
  string_forall is_space ws1 = true -> string_forall is_space ws2 = true ->
  normalize_category (ws1 ++ answer ++ ws2) = normalize_category answer.
Proof.
  intros H1 H2. unfold normalize_category. now rewrite strip_padding.
Qed.

(** X2.  The category is read from the answer regardless of letter case and
    of the whitespace around it: a backend that answers with the text
    lower-cased, trimmed, or padded with whitespace gets the same
    category. *)
Theorem categorize_task_ignores_case_and_padding
  (generate_content other : backend) (ttl dsc answer ws1 ws2 : string) :
  generate_content (CategorizePrompt ttl dsc) = Ok answer ->
  string_forall is_space ws1 = true -> string_forall is_space ws2 = true ->
  other (CategorizePrompt ttl dsc) = Ok (lower answer) \/
  other (CategorizePrompt ttl dsc) = Ok (strip answer) \/
  other (CategorizePrompt ttl dsc) = Ok (ws1 ++ answer ++ ws2) ->
  outcome (categorize_task {| model := Some other |} ttl dsc)
  = outcome (categorize_task {| model := Some generate_content |} ttl dsc).
Proof.
  intros Hg H1 H2 Hother.
  rewrite (categorize_task_normalizes generate_content ttl dsc answer Hg).
  destruct Hother as [H | [H | H]];
    rewrite (categorize_task_normalizes other ttl dsc _ H).
  - now rewrite normalize_category_lower.
  - now rewrite normalize_category_strip.
  - now rewrite normalize_category_padding.
Qed.

Lemma categorize_task_ignores_case_and_padding_witness :
  outcome (categorize_task {| model := Some (fun _ => Ok "  Health  ") |}
             "Book a check-up" "")
  = outcome (categorize_task {| model := Some (fun _ => Ok "Health") |}
               "Book a check-up" "")
  /\ outcome (categorize_task {| model := Some (fun _ => Ok "Health") |}
                "Book a check-up" "") = Ok "health".
Proof.
  split; [| reflexivity].
  apply (categorize_task_ignores_case_and_padding
           (fun _ => Ok "Health") (fun _ => Ok "  Health  ")
           "Book a check-up" "" "Health" "  " "  ");
    [reflexivity | reflexivity | reflexivity |].
  right. right. reflexivity.
Defined.

(** ** The extractor, continued *)

(** X3.  Whitespace around the answer never changes what [_extract_json]
    returns. *)
Theorem extract_json_ignores_padding (ws1 text ws2 : string) :
  string_forall is_space ws1 = true -> string_forall is_space ws2 = true ->
  _extract_json (ws1 ++ text ++ ws2) = _extract_json text.
Proof.
  intros H1 H2. unfold _extract_json, clean_response.
  now rewrite (strip_padding ws1 text ws2 H1 H2).
Qed.

Lemma extract_json_ignores_padding_witness :
  _extract_json (String newline " " ++ dq "{'title': 'Pay rent'}" ++ "  ")
  = _extract_json (dq "{'title': 'Pay rent'}").
Proof.
  apply (extract_json_ignores_padding (String newline " ")
           (dq "{'title': 'Pay rent'}") "  "); reflexivity.
Defined.

(** *** Fenced answers *)

Lemma rstrip_last (p : ascii -> bool) (s : string) (c : ascii) :
  p c = false -> rstrip_by p (s ++ String c "") = s ++ String c "".
Proof.
  intros Hc. induction s as [| x s IH]; simpl.
  - now rewrite Hc.
  - rewrite IH. destruct s; reflexivity.
Qed.

Lemma eqb_length_neq (s t : string) :
  String.length s <> String.length t -> String.eqb s t = false.
Proof.
  intros H. apply String.eqb_neq. intros ->. now apply H.
Qed.

Lemma append_length (s t : string) :
  String.length (s ++ t) = (String.length s + String.length t)%nat.
Proof. induction s as [| c s IH]; simpl; [reflexivity | now rewrite IH]. Qed.

(** The closing fence and the line feed before it go, and nothing else. *)
Lemma closing_fence_removed (body : string) :
  re_sub_closing_fence (body ++ String newline "```") = body.
Proof.
  induction body as [| c body IH]; [reflexivity |].
  rewrite closing_fence_unfold.
  assert (Hlen : (5 <= String.length
                         (String c body ++ String newline "```"))%nat).
  { rewrite append_length. simpl. lia. }
  rewrite (eqb_length_neq _ "```") by (simpl in *; lia).
  rewrite (eqb_length_neq _ (String newline "```")) by (simpl in *; lia).
  rewrite (eqb_length_neq _ ("```" ++ String newline ""))
    by (simpl in *; lia).
  assert (H5 : String.eqb (String c body ++ String newline "```")
                 (String newline ("```" ++ String newline "")) = false).
  { destruct body as [| c' body].
    - apply String.eqb_neq. intros H. inversion H.
    - apply eqb_length_neq. rewrite append_length. simpl. lia. }
  rewrite H5. cbn [orb append]. now rewrite IH.
Qed.

Lemma opening_fence_removed (lang rest : string) :
  string_forall is_word lang = true ->
  re_sub_opening_fence ("```" ++ lang ++ String newline rest) = rest.
Proof.
  intros Hlang. unfold re_sub_opening_fence.
  change (startswith "```" ("```" ++ lang ++ String newline rest)) with true.
  cbn [drop append]. rewrite (lstrip_app_all _ _ _ Hlang).
  reflexivity.
Qed.

(** X4.  A fenced answer is unwrapped exactly: for a block that opens with
    three backticks and a language tag of word characters, holds the body on
    the lines between, and closes with three backticks, whatever whitespace
    surrounds it, the text that is parsed is the body; a body that is valid
    JSON is what [_extract_json] returns. *)
Theorem extract_json_unwraps_fence (ws1 lang body ws2 : string) :
  string_forall is_space ws1 = true -> string_forall is_space ws2 = true ->
  string_forall is_word lang = true ->
  let text :=
    ws1 ++ ("```" ++ lang ++ String newline (body ++ String newline "```"))
        ++ ws2 in
  clean_response text = body /\
  forall v, json_loads body = Ok v -> _extract_json text = Ok v.
Proof.
  intros H1 H2 Hlang text.
  assert (Hclean : clean_response text = body).
  { unfold clean_response, text. rewrite (strip_padding _ _ _ H1 H2).
    assert (Hstrip :
      strip ("```" ++ lang ++ String newline (body ++ String newline "```"))
      = "```" ++ lang ++ String newline (body ++ String newline "```")).
    { unfold strip. cbn [append lstrip_by]. 
      change (is_space "`") with false. cbv iota.
      replace (String "`" (String "`" (String "`"
                 (lang ++ String newline (body ++ String newline "```")))))
        with (("```" ++ lang ++ String newline (body ++ String newline "``"))
              ++ String "`" "").
      - apply rstrip_last. reflexivity.
      - cbn [append]. do 3 f_equal. rewrite append_assoc. cbn [append].
        f_equal. f_equal. rewrite append_assoc. reflexivity. }
    rewrite Hstrip.
    change (startswith "```"
              ("```" ++ lang ++ String newline (body ++ String newline "```")))
      with true. cbv iota.
    rewrite (opening_fence_removed lang _ Hlang).
    apply closing_fence_removed. }
  split; [exact Hclean |].
  intros v Hv. unfold _extract_json. rewrite Hclean, Hv. reflexivity.
Qed.

Lemma extract_json_unwraps_fence_witness :
  _extract_json
    (" " ++ ("```" ++ "json"
             ++ String newline (dq "{'summary': 'Good week'}"
                                ++ String newline "```")) ++ String newline "")
  = Ok (PDict [("summary", PStr "Good week")]).
Proof.
  apply (extract_json_unwraps_fence " " "json" (dq "{'summary': 'Good week'}")
           (String newline ""));
    reflexivity.
Defined.

(** ** What the fallback search can return *)

Lemma re_search_braces_head (text m : string) :
  re_search_braces text = Some m -> exists r, m = String "{" r.
Proof.
  induction text as [| c text IH]; simpl; [discriminate |].
  destruct (Ascii.eqb c "{") eqn:Hc; [| exact IH].
  apply Ascii.eqb_eq in Hc. subst c.
  destruct (brace_body text) as [b |]; [| exact IH].
  intros H. inversion H. now exists b.
Qed.

Lemma scan_members_dict (n : nat) :
  forall s acc v r,
    scan_members n s acc = Some (v, r) -> exists d, v = PDict d.
Proof.
  induction n as [| n IH]; intros s acc v r; [discriminate |].
  rewrite scan_members_S.
  destruct (after dquote s) as [r0 |]; [| discriminate].
  destruct (scanstring r0) as [[key r1] |]; [| discriminate].
  destruct (after ":" (skip_ws r1)) as [r2 |]; [| discriminate].
  destruct (scan_once n (skip_ws r2)) as [[v0 r3] |]; [| discriminate].
  destruct (after "}" (skip_ws r3)) as [rest |].
  - intros H. inversion H. now eexists.
  - destruct (after "," (skip_ws r3)) as [r4 |]; [| discriminate].
    apply IH.
Qed.

(** A text that starts with an opening brace decodes to a mapping or not
    at all. *)
Lemma json_loads_brace (r : string) (v : pyval) :
  json_loads (String "{" r) = Ok v -> exists d, v = PDict d.
Proof.
  unfold json_loads.
  change (skip_ws (String "{" r)) with (String "{" r).
  rewrite scan_once_S.
  change (Ascii.eqb "{" dquote) with false.
  change (Ascii.eqb "{" "{") with true. cbv iota.
  destruct (after "}" (skip_ws r)) as [rest |].
  - destruct (skip_ws rest); intros H; inversion H. now eexists.
  - destruct (scan_members _ (skip_ws r) []) as [[v' rest] |] eqn:E;
      [| discriminate].
    apply scan_members_dict in E. destruct E as [d ->].
    destruct (skip_ws rest); intros H; inversion H. now eexists.
Qed.



(** ** The validator and the parse operation, continued *)

(** The fields of a validated record, one by one. *)
Lemma validate_fields (kvs : list (string * pyval)) (t : parsed_task) :
  _validate_parsed_task (PDict kvs) = Ok t ->
  exists t0 f,
    py_slice_to 255
      (match assoc "title" kvs with Some v => v | None => PStr "New Task" end)
      = Ok (title t) /\
    t0 = title t /\
    description t
      = match assoc "description" kvs with Some v => v | None => PNone end /\
    priority t
      = match assoc "priority" kvs with
        | Some (PStr p) =>
            if existsb (String.eqb p) valid_priorities
            then PStr p else PStr "medium"
        | _ => PStr "medium"
        end /\
    category t
      = match assoc "category" kvs with
        | Some (PStr c) =>
            if existsb (String.eqb c) valid_categories
            then PStr c else PStr "other"
        | _ => PStr "other"
        end /\
    due_date t
      = match assoc "due_date" kvs with Some v => v | None => PNone end /\
    py_float
      (match assoc "confidence" kvs with
       | Some v => v
       | None => PFloat float_half
       end) = Ok f /\
    confidence t
      = pyval_of_number (py_min (py_max (NFloat f) (NInt 0)) (NInt 1)).
Proof.
  unfold _validate_parsed_task. intros H.
  apply bind_Ok in H. destruct H as [t0 [Ht0 H]].
  apply bind_Ok in H. destruct H as [ttl [Httl H]].
  apply bind_Ok in H. destruct H as [dsc [Hdsc H]].
  apply bind_Ok in H. destruct H as [p0 [Hp0 H]].
  apply bind_Ok in H. destruct H as [p [Hp H]].
  apply bind_Ok in H. destruct H as [c0 [Hc0 H]].
  apply bind_Ok in H. destruct H as [c [Hc H]].
  apply bind_Ok in H. destruct H as [due [Hdue H]].
  apply bind_Ok in H. destruct H as [x [Hx H]].
  apply bind_Ok in H. destruct H as [f [Hf H]].
  inversion H; subst t; clear H. cbn [title description priority category
                                      due_date confidence].
  pose proof (validated_choice _ kvs _ _ _ _ _ eq_refl Hp0 Hp) as Hprio.
  pose proof (validated_choice _ kvs _ _ _ _ _ eq_refl Hc0 Hc) as Hcat.
  cbn [py_get] in Ht0, Hdsc, Hdue, Hx.
  exists ttl, f. repeat split; try assumption.
  - destruct (assoc "title" kvs); inversion Ht0; subst; exact Httl.
  - destruct (assoc "description" kvs); now inversion Hdsc.
  - destruct (assoc "due_date" kvs); now inversion Hdue.
  - destruct (assoc "confidence" kvs); inversion Hx; subst; exact Hf.
Qed.

Lemma validate_needs_mapping (data : pyval) (t : parsed_task) :
  _validate_parsed_task data = Ok t -> exists kvs, data = PDict kvs.
Proof.
  destruct data; try discriminate. intros _. now eexists.
Qed.

(** X6.  Whatever the backend returns or raises, [parse_natural_language]
    returns a record whose priority and category are among the enumerated
    values, whose title has at most 255 entries and whose confidence is
    within [0, 1] unless it is a NaN; it sends at most one prompt. *)
Theorem parse_natural_language_result_domains
  (self : AIService) (today text : string) :
  exists t,
    outcome (parse_natural_language self today text) = Ok t /\
    (exists p, priority t = PStr p /\ In p valid_priorities) /\
    (exists c, category t = PStr c /\ In c valid_categories) /\
    (exists n, py_len (title t) = Some n /\ (n <= 255)%nat) /\
    (is_nan_value (confidence t) = false ->
     in_unit_interval (confidence t) = true) /\
    (List.length (calls (parse_natural_language self today text)) <= 1)%nat.
Proof.
  assert (Hfallback :
    (exists p, priority (_fallback_parse text) = PStr p /\
               In p valid_priorities) /\
    (exists c, category (_fallback_parse text) = PStr c /\
               In c valid_categories) /\
    (exists n, py_len (title (_fallback_parse text)) = Some n /\
               (n <= 255)%nat) /\
    (is_nan_value (confidence (_fallback_parse text)) = false ->
     in_unit_interval (confidence (_fallback_parse text)) = true)).
  { split; [exists "medium"; simpl; auto |].
    split; [exists "other"; simpl; auto 10 |].
    split; [| reflexivity].
    eexists. split; [reflexivity |].
    pose proof (substring_length_le text 100). unfold str_slice_to. lia. }
  unfold parse_natural_language.
  destruct (model self) as [g |]; cbn [outcome calls].
  - destruct (response <- g (ParsePrompt text today) ;;
              result <- _extract_json response ;;
              _validate_parsed_task result) as [t | e] eqn:E;
      cbn [try_except].
    + exists t. split; [reflexivity |].
      apply bind_Ok in E. destruct E as [response [_ E]].
      apply bind_Ok in E. destruct E as [data [_ E]].
      destruct (validate_needs_mapping _ _ E) as [kvs ->].
      destruct (validate_fields kvs t E)
        as [t0 [f [Httl [_ [_ [Hp [Hc [_ [_ Hconf]]]]]]]]].
      split; [rewrite Hp; apply valid_choice_member; simpl; auto |].
      split; [rewrite Hc; apply valid_choice_member; simpl; auto 10 |].
      split; [eapply py_slice_to_length; exact Httl |].
      split; [apply (clamp_in_unit_interval f); exact Hconf | simpl; lia].
    + exists (_fallback_parse text). split; [reflexivity |].
      destruct Hfallback as [H1 [H2 [H3 H4]]].
      repeat (split; [assumption |]). simpl; lia.
  - exists (_fallback_parse text). split; [reflexivity |].
    destruct Hfallback as [H1 [H2 [H3 H4]]].
    repeat (split; [assumption |]). simpl; lia.
Qed.

Lemma parse_natural_language_result_domains_witness :
  exists t,
    outcome (parse_natural_language
               {| model := Some (fun _ => Ok (dq "{'priority': 'ASAP'}")) |}
               "2024-05-01" "renew passport") = Ok t /\
    in_unit_interval (confidence t) = true.
Proof.
  destruct (parse_natural_language_result_domains
              {| model := Some (fun _ => Ok (dq "{'priority': 'ASAP'}")) |}
              "2024-05-01" "renew passport")
    as [t [Ht [_ [_ [_ [Hconf _]]]]]].
  exists t. split; [exact Ht |]. apply Hconf.
  vm_compute in Ht. inversion Ht. reflexivity.
Defined.

(** *** Validating twice *)

Lemma substring_idem (n : nat) (s : string) :
  substring 0 n (substring 0 n s) = substring 0 n s.
Proof.
  revert s. induction n as [| n IH]; intros [| c s]; simpl; try reflexivity.
  now rewrite IH.
Qed.

Lemma firstn_idem {A : Type} (n : nat) (l : list A) :
  firstn n (firstn n l) = firstn n l.
Proof.
  revert l. induction n as [| n IH]; intros [| a l]; simpl; try reflexivity.
  now rewrite IH.
Qed.

Lemma py_slice_to_idem (n : nat) (v w : pyval) :
  py_slice_to n v = Ok w -> py_slice_to n w = Ok w.
Proof.
  destruct v; simpl; intros H; inversion H; subst; simpl.
  - unfold str_slice_to. now rewrite substring_idem.
  - now rewrite firstn_idem.
Qed.

Lemma valid_choice_fixed (valid : list string) (fallback : string)
  (o : option pyval) :
  In fallback valid ->
  let w :=
    match o with
    | Some (PStr s) =>
        if existsb (String.eqb s) valid then PStr s else PStr fallback
    | _ => PStr fallback
    end in
  match w with
  | PStr s => if existsb (String.eqb s) valid then PStr s else PStr fallback
  | _ => PStr fallback
  end = w.
Proof.
  intros Hin.
  assert (Hfb : existsb (String.eqb fallback) valid = true).
  { apply existsb_exists. exists fallback. split; [exact Hin |].
    apply String.eqb_refl. }
  destruct o as [[| b | z | f | s | l | d] |]; cbv beta iota zeta;
    try (rewrite Hfb; reflexivity).
  destruct (existsb (String.eqb s) valid) eqn:Hs.
  - now rewrite Hs.
  - now rewrite Hfb.
Qed.

(** The clamp, applied to what it returned. *)
Lemma clamp_again (f : spec_float) :
  let c := py_min (py_max (NFloat f) (NInt 0)) (NInt 1) in
  exists f',
    py_float (pyval_of_number c) = Ok f' /\
    py_min (py_max (NFloat f') (NInt 0)) (NInt 1) = NFloat f' /\
    (is_nan c = false -> num_compare c (NFloat f') = Some Eq) /\
    (forall g, c = NFloat g -> f' = g).
Proof.
  unfold py_max, py_min.
  destruct (num_gtb (NInt 0) (NFloat f)) eqn:Hlow.
  - exists (S754_zero false). repeat split; try reflexivity. discriminate.
  - destruct (num_ltb (NInt 1) (NFloat f)) eqn:Hhigh.
    + exists float_one. repeat split; try reflexivity. discriminate.
    + exists f. cbn [pyval_of_number py_float]. rewrite Hlow, Hhigh.
      repeat split.
      * intros Hnan.
        destruct f as [s | [] | | s m e]; try reflexivity;
          try discriminate Hnan.
        unfold num_compare. cbn [xnum_of_number xnum_compare].
        now rewrite Z.compare_refl.
      * intros g Hg. now inversion Hg.
Qed.

(** X7.  A validated record validates again to the same record: title,
    description, priority, category and due date come back unchanged, and
    the confidence comes back as a float of the same value (a confidence
    that was clamped to the int 0 or 1 becomes 0.0 or 1.0); from the second
    validation on, nothing changes any more. *)
Theorem validate_parsed_task_twice (data : pyval) (t : parsed_task) :
  _validate_parsed_task data = Ok t ->
  exists t' f',
    _validate_parsed_task (parsed_task_dict t) = Ok t' /\
    title t' = title t /\ description t' = description t /\
    priority t' = priority t /\ category t' = category t /\
    due_date t' = due_date t /\
    confidence t' = PFloat f' /\
    (forall n, as_number (confidence t) = Some n -> is_nan n = false ->
       num_compare n (NFloat f') = Some Eq) /\
    (forall g, confidence t = PFloat g -> f' = g) /\
    _validate_parsed_task (parsed_task_dict t') = Ok t'.
Proof.
  intros H. destruct (validate_needs_mapping _ _ H) as [kvs ->].
  destruct (validate_fields kvs t H)
    as [t0 [f [Httl [_ [_ [Hp [Hc [_ [_ Hconf]]]]]]]]].
  destruct (clamp_again f) as [f' [Hf' [Hfix [Heq Hsame]]]].
  rewrite <- Hconf in Hf'.
  pose proof (py_slice_to_idem _ _ _ Httl) as Httl'.
  pose proof (valid_choice_fixed valid_priorities "medium"
                (assoc "priority" kvs) ltac:(simpl; auto)) as Hp'.
  pose proof (valid_choice_fixed valid_categories "other"
                (assoc "category" kvs) ltac:(simpl; auto 10)) as Hc'.
  cbv zeta in Hp', Hc'. rewrite <- Hp in Hp'. rewrite <- Hc in Hc'.
  assert (Hagain : forall u,
    title u = title t -> description u = description t ->
    priority u = priority t -> category u = category t ->
    due_date u = due_date t -> py_float (confidence u) = Ok f' ->
    _validate_parsed_task (parsed_task_dict u)
    = Ok {| title := title t; description := description t;
            priority := priority t; category := category t;
            due_date := due_date t; confidence := PFloat f' |}).
  { intros u Ht Hd Hpr Hca Hdu Hco.
    unfold _validate_parsed_task, parsed_task_dict.
    cbn [py_get assoc String.eqb Ascii.eqb Bool.eqb]. cbn [bind].
    rewrite Ht, Hd, Hpr, Hca, Hdu, Httl'. cbn [bind].
    assert (Hprio :
      (if py_in_strs (priority t) valid_priorities
       then Ok (priority t) else Ok (PStr "medium")) = Ok (priority t)).
    { destruct (priority t); cbn [py_in_strs] in *; try (now inversion Hp').
      destruct (existsb (String.eqb s) valid_priorities);
        [reflexivity | now inversion Hp']. }
    assert (Hcate :
      (if py_in_strs (category t) valid_categories
       then Ok (category t) else Ok (PStr "other")) = Ok (category t)).
    { destruct (category t); cbn [py_in_strs] in *; try (now inversion Hc').
      destruct (existsb (String.eqb s) valid_categories);
        [reflexivity | now inversion Hc']. }
    rewrite Hprio. cbn [bind]. rewrite Hcate. cbn [bind].
    rewrite Hco. cbn [bind]. rewrite Hfix. reflexivity. }
  eexists. exists f'. split; [apply (Hagain t); auto |].
  cbn [title description priority category due_date confidence].
  repeat (split; [reflexivity |]).
  split.
  { intros n Hn Hnan. rewrite Hconf in Hn.
    destruct (py_min (py_max (NFloat f) (NInt 0)) (NInt 1)) as [z | g] eqn:Ec;
      cbn [pyval_of_number as_number] in Hn; inversion Hn; subst n;
      apply Heq; exact Hnan. }
  split.
  { intros g Hg. rewrite Hconf in Hg.
    destruct (py_min (py_max (NFloat f) (NInt 0)) (NInt 1)) as [z | g'] eqn:Ec;
      cbn [pyval_of_number] in Hg; inversion Hg; subst g'.
    now apply Hsame. }
  apply (Hagain {| title := title t; description := description t;
                   priority := priority t; category := category t;
                   due_date := due_date t; confidence := PFloat f' |});
    reflexivity.
Qed.

Lemma validate_parsed_task_twice_witness :
  let data := PDict [("title", PStr "Pay rent"); ("confidence", PInt 3)] in
  exists t t',
    _validate_parsed_task data = Ok t /\
    _validate_parsed_task (parsed_task_dict t) = Ok t' /\
    confidence t = PInt 1 /\ confidence t' = PFloat float_one /\
    title t' = PStr "Pay rent".
Proof.
  intros data.
  destruct (_validate_parsed_task data) as [t |] eqn:E; [| discriminate E].
  destruct (validate_parsed_task_twice data t E)
    as [t' [f' [H1 [Ht [_ [_ [_ [_ [_ [_ [_ _]]]]]]]]]]].
  exists t, t'. split; [reflexivity |]. split; [exact H1 |].
  vm_compute in E. inversion E; subst t.
  vm_compute in H1. inversion H1; subst t'.
  repeat split.
Defined.

(** ** prioritize_tasks, continued *)

Lemma task_line_well_formed (t : pyval) :
  well_formed_task t = true <-> exists line, task_line t = Ok line.
Proof.
  unfold well_formed_task, task_line. split.
  - destruct t as [| | | | | | kvs]; try discriminate. cbn [py_getitem py_get].
    destruct (assoc "id" kvs) as [i |]; [| discriminate].
    destruct (assoc "title" kvs) as [ttl |]; [| discriminate].
    intros _. cbn [bind].
    destruct (assoc "due_date" kvs), (assoc "category" kvs);
      cbn [bind]; eexists; reflexivity.
  - intros [line H]. destruct t as [| | | | | | kvs]; try discriminate H.
    cbn [py_getitem] in H.
    destruct (assoc "id" kvs) as [i |]; [| discriminate H].
    destruct (assoc "title" kvs) as [ttl |]; [| discriminate H].
    reflexivity.
Qed.

Lemma mapM_Ok {A B : Type} (f : A -> result B) (l : list A) :
  (forall a, In a l -> exists b, f a = Ok b) -> exists bs, mapM f l = Ok bs.
Proof.
  induction l as [| a l IH]; intros H; simpl.
  - now eexists.
  - destruct (H a (or_introl eq_refl)) as [b ->].
    destruct IH as [bs ->]; [intros x Hx; apply H; now right |].
    simpl. now eexists.
Qed.

Lemma mapM_Raise {A B : Type} (f : A -> result B) (good : list A) (bad : A)
  (rest : list A) (e : exn) :
  (forall a, In a good -> exists b, f a = Ok b) -> f bad = Raise e ->
  mapM f (good ++ bad :: rest)%list = Raise e.
Proof.
  intros Hgood Hbad. induction good as [| a good IH]; simpl.
  - now rewrite Hbad.
  - destruct (Hgood a (or_introl eq_refl)) as [b ->].
    rewrite IH by (intros x Hx; apply Hgood; now right). reflexivity.
Qed.

Lemma prioritize_tasks_well_formed_returns
  (self : AIService) (tasks : list pyval) :
  (forall t, In t tasks -> well_formed_task t = true) ->
  exists r, outcome (prioritize_tasks self tasks) = Ok r /\
            (List.length (calls (prioritize_tasks self tasks)) <= 1)%nat.
Proof.
  intros Hwf. unfold prioritize_tasks.
  destruct (model self) as [generate_content |];
    [| eexists; split; [reflexivity | simpl; lia]].
  destruct tasks as [| t0 tasks']; [eexists; split; [reflexivity | simpl; lia] |].
  destruct (mapM_Ok task_line (t0 :: tasks')) as [lines ->].
  { intros t Ht. apply task_line_well_formed. now apply Hwf. }
  cbn [outcome calls].
  destruct (response <- generate_content (PrioritizePrompt lines) ;; _)
    as [r | e]; cbn [try_except]; eexists; (split; [reflexivity | simpl; lia]).
Qed.

(** X8.  With the backend available, [prioritize_tasks] returns normally
    exactly when its prompt can be built.  If every task is a mapping with
    an id and a title, it returns normally whatever the backend does and
    sends one prompt.  A task without a title or an id, or one that is not a
    mapping, makes the [KeyError] or [TypeError] of the prompt construction
    escape (it is raised before the [try]), and nothing is sent. *)
Theorem prioritize_tasks_raises_only_from_prompt
  (generate_content : backend) (tasks : list pyval) :
  let self := {| model := Some generate_content |} in
  ((forall t, In t tasks -> well_formed_task t = true) ->
   exists r, outcome (prioritize_tasks self tasks) = Ok r /\
             (List.length (calls (prioritize_tasks self tasks)) <= 1)%nat) /\
  (forall good bad rest,
     tasks = (good ++ bad :: rest)%list ->
     (forall t, In t good -> well_formed_task t = true) ->
     well_formed_task bad = false ->
     outcome (prioritize_tasks self tasks)
     = Raise (match bad with PDict _ => KeyError | _ => TypeError end) /\
     calls (prioritize_tasks self tasks) = []).
Proof.
  intros self. split.
  - intros Hwf. exact (prioritize_tasks_well_formed_returns self tasks Hwf).
  - intros good bad rest -> Hgood Hbad.
    assert (Hline : task_line bad
                    = Raise (match bad with
                             | PDict _ => KeyError
                             | _ => TypeError
                             end)).
    { unfold well_formed_task in Hbad. unfold task_line.
      destruct bad as [| | | | | | kvs]; try reflexivity.
      cbn [py_getitem].
      destruct (assoc "id" kvs) as [i |]; [| reflexivity].
      destruct (assoc "title" kvs) as [ttl |]; [discriminate Hbad |].
      reflexivity. }
    assert (Hm : mapM task_line (good ++ bad :: rest)%list
                 = Raise (match bad with
                          | PDict _ => KeyError
                          | _ => TypeError
                          end)).
    { apply mapM_Raise; [| exact Hline].
      intros t Ht. apply task_line_well_formed. now apply Hgood. }
    unfold prioritize_tasks, self. cbn [model].
    destruct (good ++ bad :: rest)%list as [| t0 l] eqn:El.
    { destruct good; discriminate El. }
    rewrite Hm. split; reflexivity.
Qed.

Lemma prioritize_tasks_raises_only_from_prompt_witness :
  let generate_content : backend := fun _ => Ok (dq "{'order': [1]}") in
  let untitled := PDict [("id", PInt 2); ("category", PStr "work")] in
  outcome (prioritize_tasks {| model := Some generate_content |}
             [task_n 1 "one"; untitled]) = Raise KeyError /\
  calls (prioritize_tasks {| model := Some generate_content |}
           [task_n 1 "one"; untitled]) = [] /\
  exists r, outcome (prioritize_tasks {| model := Some generate_content |}
                       [task_n 1 "one"]) = Ok r.
Proof.
  intros generate_content untitled.
  destruct (prioritize_tasks_raises_only_from_prompt generate_content
              [task_n 1 "one"; untitled]) as [_ Hbad].
  destruct (Hbad [task_n 1 "one"] untitled [] eq_refl) as [H1 H2].
  { intros t [<- | []]. reflexivity. }
  { reflexivity. }
  split; [exact H1 |]. split; [exact H2 |].
  destruct (prioritize_tasks_raises_only_from_prompt generate_content
              [task_n 1 "one"]) as [Hgood _].
  destruct Hgood as [r [Hr _]].
  { intros t [<- | []]. reflexivity. }
  now exists r.
Defined.

(** *** The result holds input tasks only *)

Lemma keymap_set_In (k k0 : hkey) (v t0 : pyval) (m : keymap) :
  In (k0, t0) (keymap_set k v m) -> t0 = v \/ In (k0, t0) m.
Proof.
  induction m as [| [k' v'] m IH]; simpl.
  - intros [H | []]. inversion H. now left.
  - destruct (hkey_eqb k k'); simpl.
    + intros [H | H]; [inversion H; now left | right; now right].
    + intros [H | H]; [right; now left |].
      destruct (IH H) as [-> | Hin]; [now left | right; now right].
Qed.

Lemma keymap_get_In (k : hkey) (t : pyval) (m : keymap) :
  keymap_get k m = Some t -> exists k', In (k', t) m.
Proof.
  induction m as [| [k' v'] m IH]; simpl; [discriminate |].
  destruct (hkey_eqb k k').
  - intros H. inversion H; subst. exists k'. now left.
  - intros H. destruct (IH H) as [k0 Hk0]. exists k0. now right.
Qed.

Lemma build_task_map_values (tasks : list pyval) :
  forall m tm, build_task_map tasks m = Ok tm ->
    forall k t, In (k, t) tm -> In t tasks \/ In (k, t) m.
Proof.
  induction tasks as [| t0 tasks IH]; intros m tm H k t Hin; simpl in H.
  - inversion H; subst. now right.
  - apply bind_Ok in H. destruct H as [i [_ H]].
    apply bind_Ok in H. destruct H as [k0 [_ H]].
    destruct (IH _ _ H k t Hin) as [Ht | Ht].
    + left. now right.
    + apply keymap_set_In in Ht. destruct Ht as [-> | Ht];
        [left; now left | now right].
Qed.

Lemma pick_tasks_values (tm : keymap) (order : list pyval) :
  forall res, pick_tasks tm order = Ok res ->
    forall t, In t res -> exists k, In (k, t) tm.
Proof.
  induction order as [| tid order IH]; intros res H t Hin; simpl in H.
  - inversion H; subst. destruct Hin.
  - apply bind_Ok in H. destruct H as [k [_ H]].
    apply bind_Ok in H. destruct H as [rest [Hrest H]].
    inversion H; subst res; clear H.
    destruct (keymap_get k tm) as [t' |] eqn:Eg.
    + destruct Hin as [<- | Hin]; [now apply (keymap_get_In k) |].
      now apply (IH rest).
    + now apply (IH rest).
Qed.

Lemma pick_tasks_length (tm : keymap) (order : list pyval) :
  forall res, pick_tasks tm order = Ok res ->
    (List.length res <= List.length order)%nat.
Proof.
  induction order as [| tid order IH]; intros res H; simpl in H.
  - inversion H. simpl. lia.
  - apply bind_Ok in H. destruct H as [k [_ H]].
    apply bind_Ok in H. destruct H as [rest [Hrest H]].
    inversion H; subst res; clear H. specialize (IH rest Hrest).
    destruct (keymap_get k tm); simpl; lia.
Qed.

Lemma pick_own_tasks_values (tm : keymap) (l : list pyval) :
  forall res, pick_own_tasks tm l = Ok res ->
    forall t, In t res -> In t l \/ exists k, In (k, t) tm.
Proof.
  induction l as [| t0 l IH]; intros res H t Hin; simpl in H.
  - inversion H; subst. destruct Hin.
  - apply bind_Ok in H. destruct H as [i [_ H]].
    apply bind_Ok in H. destruct H as [k [_ H]].
    apply bind_Ok in H. destruct H as [rest [Hrest H]].
    assert (Hrec : In t rest -> In t (t0 :: l) \/ exists k, In (k, t) tm).
    { intros Hr. destruct (IH rest Hrest t Hr) as [Hl | Hk];
        [left; now right | now right]. }
    assert (Hget : forall res',
              match keymap_get k tm with
              | Some t' => t' :: rest
              | None => rest
              end = res' -> In t res' ->
              In t (t0 :: l) \/ exists k, In (k, t) tm).
    { intros res' <- Hin'.
      destruct (keymap_get k tm) as [t' |] eqn:Eg; [| now apply Hrec].
      destruct Hin' as [<- | Hin']; [| now apply Hrec].
      right. now apply (keymap_get_In k). }
    destruct k as [| s | [| b | mm ee]]; inversion H; subst res; clear H;
      try (now apply (Hget _ eq_refl)).
    destruct Hin as [<- | Hin]; [left; now left | now apply Hrec].
Qed.

(** X9.  [prioritize_tasks] never makes up a task: whenever it returns,
    every task of its result is one of the tasks it was given (in every
    path: backend unavailable, error fallback, default order, the order of
    the answer, whatever that order contains). *)
Theorem prioritize_tasks_returns_input_tasks
  (self : AIService) (tasks : list pyval) (r : prioritization) :
  outcome (prioritize_tasks self tasks) = Ok r ->
  forall t, In t (prioritized_tasks r) -> In t tasks.
Proof.
  unfold prioritize_tasks.
  destruct (model self) as [g |], tasks as [| t0 tasks'];
    try (cbn [outcome]; intros H; inversion H; subst r; simpl; tauto).
  set (tasks := t0 :: tasks').
  destruct (mapM task_line tasks) as [lines | e]; [| discriminate].
  cbn [outcome].
  destruct (response <- g (PrioritizePrompt lines) ;; _) as [r' | e] eqn:E;
    cbn [try_except]; intros H; inversion H; subst r; clear H;
    [| simpl; tauto].
  apply bind_Ok in E. destruct E as [response [_ E]].
  apply bind_Ok in E. destruct E as [result [_ E]].
  apply bind_Ok in E. destruct E as [ids [_ E]].
  apply bind_Ok in E. destruct E as [order [_ E]].
  apply bind_Ok in E. destruct E as [tm [Htm E]].
  apply bind_Ok in E. destruct E as [picked [Hpick E]].
  apply bind_Ok in E. destruct E as [why [_ E]].
  inversion E; subst r'; clear E. cbn [prioritized_tasks].
  intros t Hin.
  assert (Hval : forall k, In (k, t) tm -> In t tasks).
  { intros k Hk. destruct (build_task_map_values _ _ _ Htm k t Hk) as [H | []].
    exact H. }
  destruct (has_key "order" result).
  - apply bind_Ok in Hpick. destruct Hpick as [tids [_ Hpick]].
    destruct (pick_tasks_values _ _ _ Hpick t Hin) as [k Hk].
    now apply (Hval k).
  - destruct (pick_own_tasks_values _ _ _ Hpick t Hin) as [H | [k Hk]];
      [exact H | now apply (Hval k)].
Qed.

Lemma prioritize_tasks_returns_input_tasks_witness :
  let tasks := [task_n 1 "one"; task_n 2 "two"] in
  let generate_content : backend :=
    fun _ => Ok (dq "{'order': [2, 9, 2, 'x']}") in
  exists r,
    outcome (prioritize_tasks {| model := Some generate_content |} tasks)
      = Ok r /\
    prioritized_tasks r = [task_n 2 "two"; task_n 2 "two"] /\
    forall t, In t (prioritized_tasks r) -> In t tasks.
Proof.
  intros tasks generate_content.
  destruct (outcome (prioritize_tasks {| model := Some generate_content |}
                       tasks)) as [r |] eqn:E; [| discriminate E].
  exists r. split; [reflexivity |].
  split; [vm_compute in E; inversion E; reflexivity |].
  exact (prioritize_tasks_returns_input_tasks _ tasks r E).
Defined.

(** *** The default order *)

Lemma hkey_eqb_refl (k : hkey) : k <> HNum XNaN -> hkey_eqb k k = true.
Proof.
  destruct k as [| s | [| b | m e]]; simpl; intros H.
  - reflexivity.
  - apply String.eqb_refl.
  - now elim H.
  - now destruct b.
  - now rewrite !Z.eqb_refl.
Qed.

Lemma task_with_key_app (k : hkey) (a b : list pyval) (found : option pyval) :
  task_with_key k (a ++ b)%list found
  = task_with_key k b (task_with_key k a found).
Proof.
  revert found. induction a as [| t a IH]; intros found; simpl;
    [reflexivity | apply IH].
Qed.

Lemma task_with_key_none (k : hkey) (l : list pyval) (found : option pyval) :
  (forall t' k', In t' l -> task_key t' = Ok k' -> hkey_eqb k k' = false) ->
  task_with_key k l found = found.
Proof.
  revert found. induction l as [| t l IH]; intros found H; simpl;
    [reflexivity |].
  rewrite IH by (intros t' k' Hin; apply H; now right).
  destruct (task_key t) as [k' |] eqn:E; [| reflexivity].
  now rewrite (H t k' (or_introl eq_refl) E).
Qed.

Lemma distinct_ids_app (a b : list pyval) :
  distinct_ids (a ++ b)%list -> distinct_ids b.
Proof.
  induction a as [| t a IH]; simpl; [trivial |]. intros [_ H]. now apply IH.
Qed.

Lemma pick_own_tasks_distinct (tasks : list pyval) (tm : keymap) :
  (forall k, keymap_get k tm = task_with_key k tasks None) ->
  distinct_ids tasks ->
  forall l pre, tasks = (pre ++ l)%list ->
    (forall t, In t l -> exists k, task_key t = Ok k) ->
    pick_own_tasks tm l = Ok l.
Proof.
  intros Htm Hd. induction l as [| t l IH]; intros pre Heq Hkeys; simpl;
    [reflexivity |].
  destruct (Hkeys t (or_introl eq_refl)) as [k Hk].
  pose proof Hk as Hk'. unfold task_key in Hk'.
  apply bind_Ok in Hk'. destruct Hk' as [i [Hi Hh]].
  rewrite Hi. cbn [bind]. rewrite Hh. cbn [bind].
  rewrite (IH (pre ++ [t])%list)
    by (rewrite ?Heq, <- ?app_assoc; try reflexivity;
        intros t' Ht'; apply Hkeys; now right).
  cbn [bind].
  assert (Hfound : k <> HNum XNaN -> keymap_get k tm = Some t).
  { intros Hnan. rewrite Htm, Heq, task_with_key_app. simpl.
    rewrite Hk, (hkey_eqb_refl k Hnan).
    apply task_with_key_none.
    rewrite Heq in Hd. apply distinct_ids_app in Hd. destruct Hd as [Hd _].
    intros t' k' Hin Hk2. now apply (Hd t' k k'). }
  destruct k as [| s | [| b | m e]]; try (rewrite Hfound by discriminate);
    reflexivity.
Qed.

Lemma default_order_picked (tasks : list pyval) :
  (forall t, In t tasks -> exists k, task_key t = Ok k) ->
  distinct_ids tasks ->
  exists ids tm,
    mapM (fun t => py_getitem t "id") tasks = Ok ids /\
    build_task_map tasks [] = Ok tm /\
    pick_own_tasks tm tasks = Ok tasks.
Proof.
  intros Hkeys Hd.
  destruct (task_ids_total tasks Hkeys) as [ids Hids].
  destruct (build_task_map_total tasks Hkeys []) as [tm Htm].
  exists ids, tm. split; [exact Hids |]. split; [exact Htm |].
  exact (pick_own_tasks_distinct tasks tm
           (fun k => build_task_map_get tasks [] tm Htm k) Hd
           tasks [] eq_refl Hkeys).
Qed.

(** X10.  When the answer is a mapping without an order, the default order
    (the ids of the input) is used: for tasks whose ids are hashable and
    pairwise different the result is the input list itself, in its order,
    with the reasoning of the answer or "Prioritized by AI". *)
Theorem prioritize_tasks_default_order
  (generate_content : backend) (tasks : list pyval)
  (lines : list (pyval * pyval * pyval * pyval)) (response : string)
  (d : list (string * pyval)) :
  tasks <> [] ->
  mapM task_line tasks = Ok lines ->
  (forall t, In t tasks -> exists k, task_key t = Ok k) ->
  distinct_ids tasks ->
  generate_content (PrioritizePrompt lines) = Ok response ->
  _extract_json response = Ok (PDict d) ->
  assoc "order" d = None ->
  outcome (prioritize_tasks {| model := Some generate_content |} tasks)
  = Ok {| prioritized_tasks := tasks;
          reasoning :=
            Reasoning match assoc "reasoning" d with
                      | Some why => why
                      | None => PStr "Prioritized by AI"
                      end |}.
Proof.
  intros Hne Hlines Hkeys Hd Hgen Hjson Horder.
  destruct (default_order_picked tasks Hkeys Hd)
    as [ids [tm [Hids [Htm Hpick]]]].
  unfold prioritize_tasks. destruct tasks as [| t0 tasks']; [easy |].
  cbn [model]. rewrite Hlines. cbn [outcome]. rewrite Hgen.
  cbn [bind]. rewrite Hjson. cbn [bind]. rewrite Hids. cbn [bind].
  cbn [py_get has_key]. rewrite Horder. cbn [bind]. rewrite Htm.
  cbn [bind]. rewrite Hpick. cbn [bind].
  destruct (assoc "reasoning" d); reflexivity.
Qed.

Lemma prioritize_tasks_default_order_witness :
  let tasks := [task_n 4 "file taxes"; task_n 2 "call mum"] in
  outcome (prioritize_tasks
             {| model := Some (fun _ => Ok (dq "{'reasoning': 'all equal'}")) |}
             tasks)
  = Ok {| prioritized_tasks := tasks;
          reasoning := Reasoning (PStr "all equal") |}.
Proof.
  intros tasks.
  apply (prioritize_tasks_default_order
           (fun _ => Ok (dq "{'reasoning': 'all equal'}")) tasks
           [(PInt 4, PStr "file taxes", PNone, PStr "work");
            (PInt 2, PStr "call mum", PNone, PStr "work")]
           (dq "{'reasoning': 'all equal'}")
           [("reasoning", PStr "all equal")]).
  - discriminate.
  - reflexivity.
  - intros t [<- | [<- | []]]; eexists; reflexivity.
  - simpl. split; [| split; [| exact I]].
    + intros t' k k' [<- | []] Hk Hk'. inversion Hk; inversion Hk'.
      reflexivity.
    + intros t' k k' [].
  - reflexivity.
  - vm_compute. reflexivity.
  - reflexivity.
Defined.

(** *** The rows of the prioritize endpoint *)

Lemma odd_part_spec (p : positive) :
  Zpos p = Zpos (fst (odd_part p)) * 2 ^ snd (odd_part p)
  /\ 0 <= snd (odd_part p).
Proof.
  induction p as [p IH | p IH |].
  - cbn [odd_part fst snd]. rewrite Z.pow_0_r. lia.
  - cbn [odd_part]. destruct (odd_part p) as [q k]. cbn [fst snd] in *.
    destruct IH as [IH Hk]. split; [| lia].
    rewrite Z.pow_add_r, Z.pow_1_r by lia. rewrite Pos2Z.inj_xO, IH. ring.
  - cbn [odd_part fst snd]. rewrite Z.pow_0_r. lia.
Qed.

Lemma int_key_injective (a b : Z) :
  xnum_normal (XDy a 0) = xnum_normal (XDy b 0) -> a = b.
Proof.
  unfold xnum_normal.
  destruct a as [| p | p], b as [| q | q]; try reflexivity;
    try (pose proof (odd_part_spec p) as [Hp _]);
    try (pose proof (odd_part_spec q) as [Hq _]);
    try (destruct (odd_part p) as [p' kp]);
    try (destruct (odd_part q) as [q' kq]);
    try discriminate; cbn [fst snd] in *; intros H;
    injection H as E1 E2; assert (kp = kq) by lia; subst.
  - congruence.
  - assert (Z.pos p = Z.pos q) by congruence. congruence.
Qed.

Lemma task_data_key (row : Models.Task) :
  task_key (task_data row)
  = Ok (HNum (xnum_normal (XDy (Models.id row) 0))).
Proof. reflexivity. Qed.

Lemma rows_distinct (rows : list Models.Task) :
  NoDup (map Models.id rows) -> distinct_ids (map task_data rows).
Proof.
  induction rows as [| row rows IH]; simpl; [trivial |].
  intros H. inversion H as [| x l Hnotin Hnodup]; subst.
  split; [| now apply IH].
  intros t' k k' Hin Hk Hk'. apply in_map_iff in Hin.
  destruct Hin as [row' [<- Hrow']].
  rewrite task_data_key in Hk, Hk'. inversion Hk; inversion Hk'; subst.
  destruct (hkey_eqb _ _) eqn:E; [| reflexivity].
  apply hkey_eqb_eq in E. inversion E as [E'].
  apply int_key_injective in E'. elim Hnotin. rewrite E'.
  now apply in_map.
Qed.


(** ** Initialisation *)

(** X12.  The service is available exactly when an API key is configured
    and the construction of the model succeeds.  In every other case (no
    key, or a constructor that raises, whatever it raises) the three
    operations answer with their fallbacks and send nothing. *)
Theorem initialize_available_iff (gemini_api_key : string)
  (genai : string -> result backend) :
  let self := _initialize gemini_api_key genai in
  (is_available self = true <->
   gemini_api_key <> "" /\ exists m, genai gemini_api_key = Ok m) /\
  (is_available self = false ->
   forall today text tasks title description,
     parse_natural_language self today text
     = {| outcome := Ok (_fallback_parse text); calls := [] |} /\
     (exists why,
        prioritize_tasks self tasks
        = {| outcome := Ok {| prioritized_tasks := tasks; reasoning := why |};
             calls := [] |}) /\
     categorize_task self title description
     = {| outcome := Ok "other"; calls := [] |}).
Proof.
  intros self. unfold self, _initialize, is_available.
  destruct (String.eqb_spec gemini_api_key "") as [-> | Hkey].
  - cbn [model]. split.
    + split; [discriminate | intros [H _]; now elim H].
    + intros _ today text tasks title description.
      repeat split. eexists. reflexivity.
  - destruct (genai gemini_api_key) as [m | e]; cbn [model]; split.
    + split; [intros _; split; [exact Hkey | now exists m] | reflexivity].
    + discriminate.
    + split; [discriminate | intros [_ [m H]]; discriminate H].
    + intros _ today text tasks title description.
      repeat split. eexists. reflexivity.
Qed.

(** ** Insights *)

Lemma titles_total (tasks : list pyval) :
  (forall t, In t tasks ->
     exists kvs ttl, t = PDict kvs /\ assoc "title" kvs = Some ttl) ->
  exists titles, mapM (fun t => py_getitem t "title") tasks = Ok titles.
Proof.
  intros H. apply mapM_Ok. intros t Ht.
  destruct (H t Ht) as [kvs [ttl [-> Ha]]]. exists ttl.
  cbn [py_getitem]. now rewrite Ha.
Qed.

Lemma fallback_insights_returns (kvs bp : list (string * pyval))
  (f : spec_float) :
  assoc "completion_rate" kvs = Some (PFloat f) ->
  assoc "by_priority" kvs = Some (PDict bp) ->
  (assoc "urgent" bp = None \/ exists n, assoc "urgent" bp = Some (PInt n)) ->
  exists i, _fallback_insights (PDict kvs) = Ok i /\
            snd (ai_summary i) = PFloat f /\
            fst (ai_summary i)
            = match assoc "total" kvs with Some t => t | None => PInt 0 end.
Proof.
  intros Hrate Hbp Hurgent. unfold _fallback_insights.
  cbn [py_get]. rewrite Hrate, Hbp. cbn [bind py_lt_number as_number py_get].
  destruct Hurgent as [-> | [n ->]];
    cbn [bind py_gt_number as_number format_percent py_float];
    destruct (assoc "total" kvs); cbn [bind];
    eexists; (split; [reflexivity | split; reflexivity]).
Qed.

(** X13.  On statistics of the shape the insights endpoint builds (the five
    entries present, a float rate, integer counts per priority) and tasks
    with titles, [generate_insights] returns normally whatever the backend
    does or answers, with at most one call; an answer computed from the
    statistics reports the total and the rate of the statistics. *)
Theorem generate_insights_returns
  (model : option insights_backend) (tasks : list pyval)
  (kvs bp : list (string * pyval)) (total completed by_category : pyval)
  (f : spec_float) :
  assoc "total" kvs = Some total ->
  assoc "completed" kvs = Some completed ->
  assoc "completion_rate" kvs = Some (PFloat f) ->
  assoc "by_category" kvs = Some by_category ->
  assoc "by_priority" kvs = Some (PDict bp) ->
  (assoc "urgent" bp = None \/ exists n, assoc "urgent" bp = Some (PInt n)) ->
  (forall t, In t (firstn 5 tasks) ->
     exists tkvs ttl, t = PDict tkvs /\ assoc "title" tkvs = Some ttl) ->
  exists a,
    insights_outcome (generate_insights model tasks (PDict kvs)) = Ok a /\
    (List.length (insights_calls (generate_insights model tasks (PDict kvs)))
     <= 1)%nat /\
    match a with
    | AIInsights _ _ => model <> None
    | StatsInsights i => ai_summary i = (total, PFloat f)
    end.
Proof.
  intros Htotal Hcompleted Hrate Hcat Hbp Hurgent Htitles.
  destruct (fallback_insights_returns kvs bp f Hrate Hbp Hurgent)
    as [i [Hi [Hsnd Hfst]]].
  rewrite Htotal in Hfst.
  assert (Hsum : ai_summary i = (total, PFloat f)).
  { destruct (ai_summary i). simpl in *. now subst. }
  unfold generate_insights. destruct model as [generate_content |].
  - destruct (titles_total _ Htitles) as [titles Ht].
    unfold insights_prompt_of. cbn [py_getitem].
    rewrite Htotal, Hcompleted, Hrate, Hcat, Hbp.
    cbn [bind format_percent py_float]. rewrite Ht. cbn [bind].
    cbn [insights_outcome insights_calls].
    match goal with
    | |- context [try_except ?body _] => destruct body as [a | e] eqn:E
    end; cbn [try_except].
    + exists a. split; [reflexivity | split; [simpl; lia |]].
      apply bind_Ok in E. destruct E as [response [_ E]].
      apply bind_Ok in E. destruct E as [result [_ E]].
      apply bind_Ok in E. destruct E as [summary [_ E]].
      apply bind_Ok in E. destruct E as [tips [_ E]].
      inversion E. discriminate.
    + rewrite Hi. cbn [bind]. eexists.
      split; [reflexivity | split; [simpl; lia | exact Hsum]].
  - cbn [insights_outcome insights_calls]. rewrite Hi. cbn [bind].
    eexists. split; [reflexivity | split; [simpl; lia | exact Hsum]].
Qed.

Lemma generate_insights_returns_witness :
  let stats :=
    PDict [("total", PInt 4); ("completed", PInt 1);
           ("completion_rate", PFloat (float_of_dyadic 1 (-2)));
           ("by_category", PDict [("work", PInt 4)]);
           ("by_priority", PDict [("urgent", PInt 4)])] in
  let tasks := [PDict [("title", PStr "file taxes"); ("completed", PBool false)]] in
  exists a,
    insights_outcome
      (generate_insights (Some (fun _ => Raise (BackendError "quota exceeded"))) tasks stats)
    = Ok a.
Proof.
  intros stats tasks.
  destruct (generate_insights_returns
              (Some (fun _ => Raise (BackendError "quota exceeded"))) tasks
              [("total", PInt 4); ("completed", PInt 1);
               ("completion_rate", PFloat (float_of_dyadic 1 (-2)));
               ("by_category", PDict [("work", PInt 4)]);
               ("by_priority", PDict [("urgent", PInt 4)])]
              [("urgent", PInt 4)] (PInt 4) (PInt 1)
              (PDict [("work", PInt 4)]) (float_of_dyadic 1 (-2))
              eq_refl eq_refl eq_refl eq_refl eq_refl)
    as [a [Ha _]].
  - right. now exists 4.
  - intros t [<- | []]. now eexists _, _.
  - now exists a.
Defined.

(** X14.  With the backend available, the statistics are read by subscript
    before the call: statistics without a total make the [KeyError] escape
    and nothing is sent, whereas the same statistics are served as a total
    of 0 when the backend is unavailable. *)
Theorem generate_insights_missing_total
  (tasks : list pyval) (kvs : list (string * pyval)) :
  assoc "total" kvs = None ->
  (forall generate_content,
     generate_insights (Some generate_content) tasks (PDict kvs)
     = {| insights_outcome := Raise KeyError; insights_calls := [] |}) /\
  (forall a,
     insights_outcome (generate_insights None tasks (PDict kvs)) = Ok a ->
     exists i, a = StatsInsights i /\ fst (ai_summary i) = PInt 0).
Proof.
  intros Htotal. split.
  - intros g. unfold generate_insights, insights_prompt_of.
    cbn [py_getitem]. rewrite Htotal. reflexivity.
  - intros a. unfold generate_insights. cbn [insights_outcome].
    intros H. apply bind_Ok in H. destruct H as [i [Hi H]].
    inversion H; subst a. exists i. split; [reflexivity |].
    unfold _fallback_insights in Hi.
    apply bind_Ok in Hi. destruct Hi as [rate [_ Hi]].
    apply bind_Ok in Hi. destruct Hi as [low [_ Hi]].
    apply bind_Ok in Hi. destruct Hi as [by_priority [_ Hi]].
    apply bind_Ok in Hi. destruct Hi as [urgent [_ Hi]].
    apply bind_Ok in Hi. destruct Hi as [many [_ Hi]].
    apply bind_Ok in Hi. destruct Hi as [total [Ht Hi]].
    apply bind_Ok in Hi. destruct Hi as [rate' [_ Hi]].
    apply bind_Ok in Hi. destruct Hi as [u [_ Hi]].
    inversion Hi. cbn [ai_summary fst].
    cbn [py_get] in Ht. rewrite Htotal in Ht. now inversion Ht.
Qed.

Lemma generate_insights_missing_total_witness :
  let stats := PDict [("completion_rate", PFloat float_half)] in
  insights_outcome (generate_insights (Some (fun _ => Ok "{}")) [] stats)
  = Raise KeyError /\
  exists i, insights_outcome (generate_insights None [] stats)
            = Ok (StatsInsights i) /\ fst (ai_summary i) = PInt 0.
Proof.
  intros stats.
  destruct (generate_insights_missing_total []
              [("completion_rate", PFloat float_half)] eq_refl) as [Hav Hun].
  split; [now rewrite Hav |].
  destruct (Hun _ eq_refl) as [i [Hi Hz]].
  exists i. split; [| exact Hz]. unfold stats. rewrite <- Hi. reflexivity.
Defined.

(** X15.  What becomes of the answer: when the extractor gives a mapping,
    summary and tips are taken from it as they are, each replaced by its
    hard-coded default when absent, so that an answer without any JSON
    gives the two defaults and not the insights computed from the
    statistics; when it gives anything else, the [AttributeError] of [get]
    is caught and the statistics are used. *)
Theorem generate_insights_answer
  (generate_content : insights_backend) (tasks : list pyval) (stats : pyval)
  (prompt : insights_prompt) (response : string) (v : pyval) :
  insights_prompt_of tasks stats = Ok prompt ->
  generate_content prompt = Ok response ->
  _extract_json response = Ok v ->
  insights_outcome (generate_insights (Some generate_content) tasks stats)
  = match v with
    | PDict d =>
        Ok (AIInsights
              match assoc "summary" d with
              | Some s => s
              | None => default_summary
              end
              match assoc "tips" d with
              | Some t => t
              | None => default_tips
              end)
    | _ => i <- _fallback_insights stats ;; Ok (StatsInsights i)
    end.
Proof.
  intros Hprompt Hgen Hjson. unfold generate_insights. rewrite Hprompt.
  cbn [insights_outcome]. rewrite Hgen. cbn [bind]. rewrite Hjson.
  cbn [bind]. destruct v as [| | | | | | d]; try reflexivity.
  cbn [py_get]. destruct (assoc "summary" d), (assoc "tips" d); reflexivity.
Qed.

Lemma generate_insights_answer_witness :
  let stats :=
    PDict [("total", PInt 4); ("completed", PInt 1);
           ("completion_rate", PFloat (float_of_dyadic 1 (-2)));
           ("by_category", PDict [("work", PInt 4)]);
           ("by_priority", PDict [("urgent", PInt 4)])] in
  insights_outcome
    (generate_insights (Some (fun _ => Ok "I cannot help with that.")) []
       stats)
  = Ok (AIInsights default_summary default_tips).
Proof.
  intros stats.
  exact (generate_insights_answer (fun _ => Ok "I cannot help with that.")
           [] stats
           (InsightsPrompt (PInt 4) (PInt 1)
              (PFloat (float_of_dyadic 1 (-2)))
              (PDict [("work", PInt 4)]) (PDict [("urgent", PInt 4)]) [])
           "I cannot help with that." (PDict [])
           eq_refl eq_refl eq_refl).
Defined.

(** ** The CORS settings *)

Lemma split_on_nonempty (sep : ascii) (s : string) : split_on sep s <> [].
Proof.
  destruct s as [| c s]; simpl; [discriminate |].
  destruct (Ascii.eqb c sep); [discriminate |].
  destruct (split_on sep s); discriminate.
Qed.

Lemma split_on_free (s : string) :
  comma_free s = true -> split_on "," s = [s].
Proof.
  unfold comma_free. induction s as [| c s IH]; simpl; [reflexivity |].
  intros H. apply andb_prop in H. destruct H as [Hc Hs].
  apply negb_true_iff in Hc. rewrite Hc, (IH Hs). reflexivity.
Qed.

Lemma split_on_app (a b : string) :
  comma_free a = true ->
  split_on "," (a ++ String "," b) = a :: split_on "," b.
Proof.
  unfold comma_free. induction a as [| c a IH]; simpl; [reflexivity |].
  intros H. apply andb_prop in H. destruct H as [Hc Ha].
  apply negb_true_iff in Hc. rewrite Hc, (IH Ha). reflexivity.
Qed.

Lemma split_on_pieces_free (s piece : string) :
  In piece (split_on "," s) -> comma_free piece = true.
Proof.
  unfold comma_free. revert piece.
  induction s as [| c s IH]; simpl; intros piece.
  - intros [<- | []]. reflexivity.
  - destruct (Ascii.eqb c ",") eqn:Hc.
    + intros [<- | H]; [reflexivity | now apply IH].
    + destruct (split_on "," s) as [| p ps].
      * intros [<- | []]. simpl. now rewrite Hc.
      * intros [<- | H].
        -- simpl. rewrite Hc. simpl. apply IH. now left.
        -- apply IH. now right.
Qed.

Lemma split_on_single (s piece : string) :
  split_on "," s = [piece] -> s = piece.
Proof.
  revert piece. induction s as [| c s IH]; simpl; intros piece.
  - now intros [= <-].
  - destruct (Ascii.eqb c ",").
    + intros H. exfalso. apply (split_on_nonempty "," s).
      injection H. intros H' _. exact H'.
    + destruct (split_on "," s) as [| p ps] eqn:E.
      * now elim (split_on_nonempty "," s).
      * intros [= <- ->]. now rewrite (IH p eq_refl).
Qed.

Lemma string_forall_lstrip (q p : ascii -> bool) (s : string) :
  string_forall q s = true -> string_forall q (lstrip_by p s) = true.
Proof.
  induction s as [| c s IH]; simpl; [reflexivity |].
  intros H. destruct (p c); [| exact H].
  apply andb_prop in H. now apply IH.
Qed.

Lemma string_forall_rstrip (q p : ascii -> bool) (s : string) :
  string_forall q s = true -> string_forall q (rstrip_by p s) = true.
Proof.
  induction s as [| c s IH]; simpl; [reflexivity |].
  intros H. apply andb_prop in H. destruct H as [Hc Hs].
  specialize (IH Hs). destruct (rstrip_by p s) as [| c' r].
  - destruct (p c); simpl; [reflexivity | now rewrite Hc].
  - simpl. simpl in IH. now rewrite Hc, IH.
Qed.

Lemma comma_free_strip (s : string) :
  comma_free s = true -> comma_free (strip s) = true.
Proof.
  intros H. unfold comma_free, strip.
  now apply string_forall_rstrip, string_forall_lstrip.
Qed.

Lemma lstrip_app_stop (p : ascii -> bool) (a : string) (c : ascii)
  (b : string) :
  p c = false ->
  lstrip_by p (a ++ String c b) = lstrip_by p a ++ String c b.
Proof.
  intros Hc. induction a as [| x a IH]; simpl.
  - now rewrite Hc.
  - destruct (p x); [exact IH | reflexivity].
Qed.

Lemma rstrip_app_stop (p : ascii -> bool) (a : string) (c : ascii)
  (b : string) :
  p c = false ->
  rstrip_by p (a ++ String c b) = a ++ String c (rstrip_by p b).
Proof.
  intros Hc. induction a as [| x a IH]; simpl.
  - destruct (rstrip_by p b); [now rewrite Hc | reflexivity].
  - rewrite IH. destruct a; reflexivity.
Qed.

Lemma lstrip_idem (p : ascii -> bool) (s : string) :
  lstrip_by p (lstrip_by p s) = lstrip_by p s.
Proof.
  induction s as [| c s IH]; simpl; [reflexivity |].
  destruct (p c) eqn:E; [exact IH | simpl; now rewrite E].
Qed.

Lemma lstrip_rstrip (p : ascii -> bool) (s : string) :
  lstrip_by p (rstrip_by p s) = rstrip_by p (lstrip_by p s).
Proof.
  induction s as [| c s IH]; [reflexivity |].
  cbn [lstrip_by]. destruct (p c) eqn:Hc.
  - rewrite <- IH. cbn [rstrip_by].
    destruct (rstrip_by p s) as [| c' r]; [now rewrite Hc |].
    cbn [lstrip_by]. now rewrite Hc.
  - destruct (rstrip_keeps_head p c s Hc) as [r ->].
    cbn [lstrip_by]. now rewrite Hc.
Qed.

Lemma strip_lstrip (s : string) : strip (lstrip_by is_space s) = strip s.
Proof. unfold strip. now rewrite lstrip_idem. Qed.

Lemma strip_rstrip (s : string) : strip (rstrip_by is_space s) = strip s.
Proof. unfold strip. now rewrite lstrip_rstrip, rstrip_idem. Qed.

Lemma origins_of_tail (ps : list string) :
  ps <> [] -> Forall (fun p => comma_free p = true) ps ->
  map strip (split_on "," (rstrip_by is_space (join_with "," ps)))
  = map strip ps.
Proof.
  induction ps as [| p ps IH]; [easy |]. intros _ Hfree.
  inversion Hfree as [| x l Hp Hps]; subst.
  destruct ps as [| q ps].
  - cbn [join_with].
    rewrite split_on_free
      by (now apply string_forall_rstrip).
    cbn [map]. now rewrite strip_rstrip.
  - change (join_with "," (p :: q :: ps))
      with (p ++ String "," (join_with "," (q :: ps))).
    rewrite rstrip_app_stop by reflexivity.
    rewrite split_on_app by exact Hp.
    cbn [map]. rewrite IH by (try discriminate; exact Hps). reflexivity.
Qed.

Lemma app_comma_not_star (a b : string) : a ++ String "," b <> "*".
Proof.
  destruct a as [| c a]; simpl; [discriminate |].
  intros [= _ H]. destruct a; discriminate H.
Qed.

Lemma strip_around_comma (a b : string) :
  strip (a ++ String "," b)
  = lstrip_by is_space a ++ String "," (rstrip_by is_space b).
Proof.
  unfold strip. rewrite lstrip_app_stop by reflexivity.
  now rewrite rstrip_app_stop by reflexivity.
Qed.

(** X16.  A setting written as a comma-separated list gives back the
    origins of the list, each trimmed: whitespace around an origin or
    around the whole setting is ignored, empty pieces are kept as empty
    origins, and the list of the one piece "*" is the wildcard. *)
Theorem cors_origins_of_list (ps : list string) :
  ps <> [] -> Forall (fun p => comma_free p = true) ps ->
  allow_origins (cors_middleware (join_with "," ps)) = map strip ps.
Proof.
  intros Hne Hfree. unfold cors_middleware. cbn [allow_origins].
  destruct ps as [| p ps]; [easy |].
  inversion Hfree as [| x l Hp Hps]; subst.
  destruct ps as [| q ps].
  - cbn [join_with map].
    destruct (String.eqb_spec (strip p) "*") as [E | E];
      [now rewrite E |].
    rewrite split_on_free by (now apply comma_free_strip).
    cbn [map]. now rewrite strip_idem.
  - change (join_with "," (p :: q :: ps))
      with (p ++ String "," (join_with "," (q :: ps))).
    rewrite strip_around_comma.
    destruct (String.eqb_spec
                (lstrip_by is_space p
                 ++ String "," (rstrip_by is_space (join_with "," (q :: ps))))
                "*") as [E | _];
      [now elim (app_comma_not_star _ _ E) |].
    rewrite split_on_app by (now apply string_forall_lstrip).
    cbn [map]. rewrite strip_lstrip.
    rewrite origins_of_tail by (try discriminate; exact Hps). reflexivity.
Qed.

Lemma cors_origins_of_list_witness :
  allow_origins
    (cors_middleware " http://localhost:3000, http://127.0.0.1:3000 ,")
  = ["http://localhost:3000"; "http://127.0.0.1:3000"; ""].
Proof.
  exact (cors_origins_of_list
           [" http://localhost:3000"; " http://127.0.0.1:3000 "; ""]
           ltac:(discriminate)
           ltac:(repeat constructor)).
Defined.

(** X17.  For every setting there is at least one origin, every origin is
    trimmed and holds no comma, and credentials are refused exactly when
    the origins are the one wildcard "*".  (A wildcard that is one of
    several origins keeps the credentials.) *)
Theorem cors_credentials_iff_not_wildcard (setting : string) :
  let cors := cors_middleware setting in
  allow_origins cors <> [] /\
  (forall origin, In origin (allow_origins cors) ->
     strip origin = origin /\ comma_free origin = true) /\
  (allow_credentials cors = false <-> allow_origins cors = ["*"]).
Proof.
  unfold cors_middleware. cbn [allow_origins allow_credentials].
  destruct (String.eqb_spec (strip setting) "*") as [E | E]; cbn [negb].
  - split; [discriminate |]. split; [| tauto].
    intros origin [<- | []]. split; reflexivity.
  - split; [| split].
    + pose proof (split_on_nonempty "," (strip setting)) as H.
      destruct (split_on "," (strip setting)); [easy | discriminate].
    + intros origin H. apply in_map_iff in H.
      destruct H as [piece [<- Hpiece]]. split; [apply strip_idem |].
      apply comma_free_strip. now apply (split_on_pieces_free (strip setting)).
    + split; [discriminate |]. intros H. exfalso.
      destruct (split_on "," (strip setting)) as [| piece [| ? ?]] eqn:Es;
        try discriminate H.
      apply split_on_single in Es. injection H as H.
      rewrite <- Es, strip_idem in H. exact (E H).
Qed.

(** ** The enumerations and the endpoints that convert to them *)

Lemma Priority_of_member (s : string) :
  In s valid_priorities ->
  exists p, Schemas.Priority_of (PStr s) = Ok p /\ Schemas.Priority_value p = s.
Proof.
  simpl. intros [<- | [<- | [<- | [<- | []]]]]; eexists; split; reflexivity.
Qed.

Lemma Category_of_member (s : string) :
  In s valid_categories ->
  exists c, Schemas.Category_of (PStr s) = Ok c /\ Schemas.Category_value c = s.
Proof.
  simpl.
  intros [<- | [<- | [<- | [<- | [<- | [<- | [<- | []]]]]]]];
    eexists; split; reflexivity.
Qed.

Lemma parse_result_choices (self : AIService) (today text : string) :
  exists t,
    outcome (parse_natural_language self today text) = Ok t /\
    (exists p, priority t = PStr p /\ In p valid_priorities) /\
    (exists c, category t = PStr c /\ In c valid_categories).
Proof.
  assert (Hfallback :
    (exists p, priority (_fallback_parse text) = PStr p /\
               In p valid_priorities) /\
    (exists c, category (_fallback_parse text) = PStr c /\
               In c valid_categories)).
  { split; [exists "medium"; simpl; auto | exists "other"; simpl; auto 10]. }
  unfold parse_natural_language.
  destruct (model self) as [g |]; cbn [outcome];
    [| exists (_fallback_parse text); split; [reflexivity | exact Hfallback]].
  destruct (response <- g (ParsePrompt text today) ;;
            result <- _extract_json response ;;
            _validate_parsed_task result) as [t | e] eqn:E;
    cbn [try_except];
    [| exists (_fallback_parse text); split; [reflexivity | exact Hfallback]].
  exists t. split; [reflexivity |].
  apply bind_Ok in E. destruct E as [response [_ E]].
  apply bind_Ok in E. destruct E as [data [_ E]].
  destruct data as [| | | | | | kvs]; try discriminate E.
  unfold _validate_parsed_task in E.
  apply bind_Ok in E. destruct E as [t0 [_ E]].
  apply bind_Ok in E. destruct E as [ttl [_ E]].
  apply bind_Ok in E. destruct E as [dsc [_ E]].
  apply bind_Ok in E. destruct E as [p [Hp E]].
  apply bind_Ok in E. destruct E as [pr [Hpr E]].
  apply bind_Ok in E. destruct E as [c [Hc E]].
  apply bind_Ok in E. destruct E as [ct [Hct E]].
  apply bind_Ok in E. destruct E as [due [_ E]].
  apply bind_Ok in E. destruct E as [x [_ E]].
  apply bind_Ok in E. destruct E as [f [_ E]].
  inversion E; subst t; clear E. cbn [priority category].
  rewrite (validated_choice _ kvs _ _ _ _ _ eq_refl Hp Hpr).
  rewrite (validated_choice _ kvs _ _ _ _ _ eq_refl Hc Hct).
  split; apply valid_choice_member; simpl; auto 10.
Qed.

(** X18.  The parse endpoint converts the priority and the category of the
    service's dict to the enumerations of schemas.py.  Neither conversion
    ever raises, nor does the subscript for the title: whatever the backend
    returns or raises, the arguments of the response are evaluated, and the
    two members have the values the service returned. *)
Theorem parse_response_enums_total
  (self : AIService) (today text : string) :
  exists t a,
    outcome (parse_natural_language self today text) = Ok t /\
    parse_response (parsed_task_dict t) = Ok a /\
    PStr (Schemas.Priority_value (response_priority a)) = priority t /\
    PStr (Schemas.Category_value (response_category a)) = category t /\
    response_title a = title t /\
    response_confidence a = confidence t.
Proof.
  destruct (parse_result_choices self today text)
    as [t [Ht [[p [Hp Hpin]] [c [Hc Hcin]]]]].
  destruct (Priority_of_member p Hpin) as [pm [Hpm Hpv]].
  destruct (Category_of_member c Hcin) as [cm [Hcm Hcv]].
  exists t. eexists. split; [exact Ht |].
  unfold parse_response, parsed_task_dict.
  cbn [py_getitem py_get assoc String.eqb Ascii.eqb Bool.eqb bind].
  rewrite Hp, Hpm. cbn [bind]. rewrite Hc, Hcm. cbn [bind].
  split; [reflexivity |]. cbn. now rewrite Hpv, Hcv.
Qed.

